(** * AI Bulk Image Renamer: the matching and status logic of [App.tsx]

    A shallow embedding of [handleProcessImages] (and of the two small
    handlers around it) from [src/App.tsx], together with the
    [ProcessedImage] record of [src/types.ts].

    - JavaScript strings are sequences of UTF-16 code units, modelled as
      [list N]; [trim], [startsWith], [split] and [join] follow ECMAScript.
    - The React state is a record; a handler returns the list of state
      updates it queues ([setError], [setIsProcessing], [setImages] with a
      functional updater) and the [renameImage] calls it launches.
    - [imageToCodeMap] is a [gmap] keyed by the image id.
    - The handler runs on the state it was rendered with, so the [images]
      it closes over and the [currentImages] of the first updater agree. *)

From Stdlib Require Import List NArith Ascii String Decimal PeanoNat Lia Permutation.
From stdpp Require Import base option list gmap.
Import ListNotations.

Local Open Scope N_scope.
Local Open Scope list_scope.

(** ** JavaScript strings *)

Module JS.

(** The text of a string literal of the source (ASCII only). *)
Definition lit (s : String.string) : list N :=
  List.map N_of_ascii (list_ascii_of_string s).

Definition LF : N := 10.

(** ECMAScript [WhiteSpace] and [LineTerminator] code points, the ones
    [String.prototype.trim] strips. *)
Definition isWhiteSpace (c : N) : bool :=
  (c =? 9) || (c =? 10) || (c =? 11) || (c =? 12) || (c =? 13) ||
  (c =? 32) || (c =? 160) || (c =? 5760) ||
  ((8192 <=? c) && (c <=? 8202)) ||
  (c =? 8232) || (c =? 8233) || (c =? 8239) || (c =? 8287) ||
  (c =? 12288) || (c =? 65279).

Fixpoint trimStart (s : list N) : list N :=
  match s with
  | [] => []
  | c :: s' => if isWhiteSpace c then trimStart s' else s
  end.

Definition trimEnd (s : list N) : list N := rev (trimStart (rev s)).

(** [s.trim()] *)
Definition trim (s : list N) : list N := trimEnd (trimStart s).

(** [s.startsWith(p)] *)
Fixpoint startsWith (s p : list N) {struct p} : bool :=
  match p, s with
  | [], _ => true
  | _ :: _, [] => false
  | c :: p', d :: s' => (c =? d) && startsWith s' p'
  end.

(** [s.split(sep)] for a one-unit separator: never the empty array. *)
Fixpoint split (sep : N) (s : list N) : list (list N) :=
  match s with
  | [] => [[]]
  | c :: s' =>
      if c =? sep then [] :: split sep s'
      else match split sep s' with
           | [] => [[c]]
           | l :: ls => (c :: l) :: ls
           end
  end.

(** [parts.join(sep)] *)
Fixpoint join (sep : list N) (parts : list (list N)) : list N :=
  match parts with
  | [] => []
  | [p] => p
  | p :: ps => p ++ sep ++ join sep ps
  end.

(** A string is falsy exactly when it is empty. *)
Definition truthy (s : list N) : bool :=
  match s with [] => false | _ :: _ => true end.

(** Decimal rendering of a non-negative integer, as in a template. *)
Fixpoint digits (u : Decimal.uint) : list N :=
  match u with
  | Nil => []
  | D0 u => 48 :: digits u
  | D1 u => 49 :: digits u
  | D2 u => 50 :: digits u
  | D3 u => 51 :: digits u
  | D4 u => 52 :: digits u
  | D5 u => 53 :: digits u
  | D6 u => 54 :: digits u
  | D7 u => 55 :: digits u
  | D8 u => 56 :: digits u
  | D9 u => 57 :: digits u
  end.

Definition numberToString (n : N) : list N := digits (N.to_uint n).

End JS.

(** ** The data model ([src/types.ts]) *)

Inductive Status := pending | processing | completed | error.

#[global] Instance Status_eq_dec : EqDecision Status.
Proof. solve_decision. Defined.

(** A browser [File]: only its name and its bytes matter here. *)
Record File := { file_name : list N; file_bytes : list N }.

Record ProcessedImage := {
  id : list N;
  file : File;
  previewUrl : list N;
  originalName : list N;
  newName : list N;
  status : Status;
  errorMessage : option (list N)   (* [errorMessage?: string] *)
}.

(** [{ ...img, status: s }] and friends. *)
Definition with_status (s : Status) (img : ProcessedImage) : ProcessedImage :=
  {| id := id img; file := file img; previewUrl := previewUrl img;
     originalName := originalName img; newName := newName img;
     status := s; errorMessage := errorMessage img |}.

Definition with_newName (n : list N) (img : ProcessedImage) : ProcessedImage :=
  {| id := id img; file := file img; previewUrl := previewUrl img;
     originalName := originalName img; newName := n;
     status := status img; errorMessage := errorMessage img |}.

Definition with_errorMessage (m : list N) (img : ProcessedImage) : ProcessedImage :=
  {| id := id img; file := file img; previewUrl := previewUrl img;
     originalName := originalName img; newName := newName img;
     status := status img; errorMessage := Some m |}.

Definition is_pending (img : ProcessedImage) : bool :=
  bool_decide (status img = pending).

Definition same_id (a b : list N) : bool := bool_decide (a = b).

(** ** Parsing the code list (line 30) *)

(** [itemCodes.split('\n').filter(c => c.trim() !== '')] *)
Definition parseCodes (itemCodes : list N) : list (list N) :=
  List.filter (fun c => negb (bool_decide (JS.trim c = JS.lit "")))
              (JS.split JS.LF itemCodes).

(** ** The matcher (lines 42-74) *)

(** [codes.find(code => image.originalName.startsWith(code.trim()))] *)
Definition matchingCode (codes : list (list N)) (image : ProcessedImage)
  : option (list N) :=
  List.find (fun code => JS.startsWith (originalName image) (JS.trim code)) codes.

(** One iteration of the first loop, on the pair
    [(imageToCodeMap, unmatchedImages)]. [find] yields [undefined] or a
    string, and [if (matchingCode)] tests its truthiness. *)
Definition firstPassStep (codes : list (list N))
    (acc : gmap (list N) (list N) * list ProcessedImage) (image : ProcessedImage)
  : gmap (list N) (list N) * list ProcessedImage :=
  match matchingCode codes image with
  | Some code =>
      if JS.truthy code
      then (<[id image := JS.trim code]> (fst acc), snd acc)
      else (fst acc, snd acc ++ [image])
  | None => (fst acc, snd acc ++ [image])
  end.

Definition firstPass (codes : list (list N)) (pendingImages : list ProcessedImage)
  : gmap (list N) (list N) * list ProcessedImage :=
  fold_left (firstPassStep codes) pendingImages (∅, []).

(** The single-code fallback (lines 60-66). *)
Definition secondPass (codes : list (list N))
    (acc : gmap (list N) (list N) * list ProcessedImage)
  : gmap (list N) (list N) * list ProcessedImage :=
  if (0 <? length (snd acc))%nat && (length codes =? 1)%nat then
    let singleCode := JS.trim (hd [] codes) in
    (fold_left (fun m image => <[id image := singleCode]> m) (snd acc) (fst acc), [])
  else acc.

Definition matchImages (codes : list (list N)) (pendingImages : list ProcessedImage)
  : gmap (list N) (list N) * list ProcessedImage :=
  secondPass codes (firstPass codes pendingImages).

(** ** Messages *)

Definition noCodesMessage : list N :=
  JS.lit "Please provide at least one item code.".

Definition unmatchedHead : list N :=
  JS.lit "Could not find a matching item code for some images (e.g., ".

Definition unmatchedTail : list N :=
  JS.lit "). Please ensure image filenames start with a provided item code, or provide only one item code to apply to all images.".

(** Lines 70-72. *)
Definition unmatchedMessage (unmatchedImages : list ProcessedImage) : list N :=
  let unmatchedNames :=
    JS.join (JS.lit ", ") (firstn 3 (List.map originalName unmatchedImages)) in
  let extraMessage :=
    if (3 <? length unmatchedImages)%nat
    then JS.lit " and "
           ++ JS.numberToString (N.of_nat (length unmatchedImages - 3))
           ++ JS.lit " more"
    else JS.lit "" in
  unmatchedHead ++ unmatchedNames ++ extraMessage ++ unmatchedTail.

(** Line 88. *)
Definition internalErrorMessage (image : ProcessedImage) : list N :=
  JS.lit "Internal Error: Could not find item code for " ++ originalName image ++ JS.lit ".".

Definition unknownErrorMessage : list N :=
  JS.lit "An unknown error occurred during processing.".

(** ** The React state and the updates queued on it *)

Record AppState := {
  st_images : list ProcessedImage;
  st_itemCodes : list N;
  st_error : option (list N);
  st_isProcessing : bool
}.

(** The arguments given to [setImages] in the source. *)
Inductive ImagesUpdate :=
| Append (newImages : list ProcessedImage)              (* line 26 *)
| MarkProcessing                                        (* lines 79-81 *)
| MarkError (target : list N) (message : list N)        (* lines 90-94, 109-113 *)
| MarkCompleted (target : list N) (name : list N)       (* lines 100-104 *)
| ReplaceAll (value : list ProcessedImage).             (* line 124 *)

Definition applyUpdate (u : ImagesUpdate) (currentImages : list ProcessedImage)
  : list ProcessedImage :=
  match u with
  | Append newImages => currentImages ++ newImages
  | MarkProcessing =>
      List.map (fun img => if is_pending img then with_status processing img else img)
               currentImages
  | MarkError target message =>
      List.map (fun img => if same_id (id img) target
                           then with_errorMessage message (with_status error img)
                           else img)
               currentImages
  | MarkCompleted target name =>
      List.map (fun img => if same_id (id img) target
                           then with_newName name (with_status completed img)
                           else img)
               currentImages
  | ReplaceAll value => value
  end.

Inductive Effect :=
| setImages (u : ImagesUpdate)
| setItemCodes (value : list N)
| setError (value : option (list N))
| setIsProcessing (value : bool).

Definition runEffect (st : AppState) (e : Effect) : AppState :=
  match e with
  | setImages u =>
      {| st_images := applyUpdate u (st_images st); st_itemCodes := st_itemCodes st;
         st_error := st_error st; st_isProcessing := st_isProcessing st |}
  | setItemCodes v =>
      {| st_images := st_images st; st_itemCodes := v;
         st_error := st_error st; st_isProcessing := st_isProcessing st |}
  | setError v =>
      {| st_images := st_images st; st_itemCodes := st_itemCodes st;
         st_error := v; st_isProcessing := st_isProcessing st |}
  | setIsProcessing v =>
      {| st_images := st_images st; st_itemCodes := st_itemCodes st;
         st_error := st_error st; st_isProcessing := v |}
  end.

(** Queued updates are applied one after the other, in the order queued. *)
Definition runEffects (es : list Effect) (st : AppState) : AppState :=
  fold_left runEffect es st.

(** ** The rename service, as seen from the handler *)

(** [renameImage(image.file, itemCode)], remembered with the id that the
    callbacks of the promise close over. *)
Record RenameCall := {
  call_id : list N;
  call_file : File;
  call_code : list N
}.

(** What a promise rejects with: an [Error] instance carries [.message];
    anything else is read as carrying none. *)
Inductive Rejection := ErrorInstance (message : list N) | OtherValue.

Inductive Settlement := Fulfilled (name : list N) | Rejected (reason : Rejection).

(** Line 108. *)
Definition rejectionMessage (reason : Rejection) : list N :=
  match reason with
  | ErrorInstance message => message
  | OtherValue => unknownErrorMessage
  end.

(** The [.then] and [.catch] callbacks (lines 99-114). *)
Definition onSettled (cr : RenameCall * Settlement) : Effect :=
  match snd cr with
  | Fulfilled name => setImages (MarkCompleted (call_id (fst cr)) (JS.trim name))
  | Rejected reason => setImages (MarkError (call_id (fst cr)) (rejectionMessage reason))
  end.

(** ** The handlers *)

(** A handler either returns early or reaches [await Promise.all]. *)
Inductive Handled :=
| Return (effects : list Effect)
| Await (effects : list Effect) (calls : list RenameCall).

(** The body of [pendingImages.map] (lines 83-115) for one image: the
    update queued at once by the safeguard, or the call launched. *)
Definition launch (imageToCodeMap : gmap (list N) (list N)) (image : ProcessedImage)
  : list Effect * list RenameCall :=
  match imageToCodeMap !! id image with
  | Some itemCode =>
      if JS.truthy itemCode
      then ([], [ {| call_id := id image; call_file := file image; call_code := itemCode |} ])
      else ([setImages (MarkError (id image) (internalErrorMessage image))], [])
  | None => ([setImages (MarkError (id image) (internalErrorMessage image))], [])
  end.

Definition launchAll (imageToCodeMap : gmap (list N) (list N))
    (pendingImages : list ProcessedImage) : list Effect * list RenameCall :=
  let launched := List.map (launch imageToCodeMap) pendingImages in
  (concat (List.map fst launched), concat (List.map snd launched)).

(** [handleProcessImages] (lines 29-120), up to the [await]. *)
Definition handleProcessImages (st : AppState) : Handled :=
  let codes := parseCodes (st_itemCodes st) in
  let pendingImages := List.filter is_pending (st_images st) in
  if (length pendingImages =? 0)%nat then Return []
  else if (length codes =? 0)%nat then Return [setError (Some noCodesMessage)]
  else
    let matched := matchImages codes pendingImages in
    if (0 <? length (snd matched))%nat
    then Return [setError (Some (unmatchedMessage (snd matched)))]
    else
      let launched := launchAll (fst matched) pendingImages in
      Await ([setError None; setIsProcessing true; setImages MarkProcessing]
               ++ fst launched)
            (snd launched).

(** Everything a run queues, given the order in which the launched calls
    settle: the handler's own updates, one update per settled call, and
    [setIsProcessing(false)] after the [await]. *)
Definition runUpdates (h : Handled) (settled : list (RenameCall * Settlement))
  : list Effect :=
  match h with
  | Return effects => effects
  | Await effects _ => effects ++ List.map onSettled settled ++ [setIsProcessing false]
  end.

(** Each launched call settles exactly once, in any order. *)
Definition settles (h : Handled) (settled : list (RenameCall * Settlement)) : Prop :=
  match h with
  | Return _ => settled = []
  | Await _ calls => Permutation (List.map fst settled) calls
  end.

Definition processImages (st : AppState) (settled : list (RenameCall * Settlement))
  : AppState :=
  runEffects (runUpdates (handleProcessImages st) settled) st.

(** [handleFilesSelected] (lines 15-27). [Date.now()], [Math.random()] and
    [URL.createObjectURL] are answers of the environment. *)
Record Selected := {
  sel_file : File;
  sel_now : N;
  sel_random : list N;
  sel_url : list N
}.

Definition newImage (s : Selected) : ProcessedImage :=
  {| id := file_name (sel_file s) ++ JS.lit "-" ++ JS.numberToString (sel_now s)
             ++ JS.lit "-" ++ sel_random s;
     file := sel_file s;
     previewUrl := sel_url s;
     originalName := file_name (sel_file s);
     newName := JS.lit "";
     status := pending;
     errorMessage := None |}.

Definition handleFilesSelected (files : list Selected) : list Effect :=
  [setError None; setImages (Append (List.map newImage files))].

(** [handleClear] (lines 122-127). *)
Definition handleClear : list Effect :=
  [setImages (ReplaceAll []); setItemCodes (JS.lit ""); setError None].

(** ** Vocabulary of the statements *)

(** A string that does not begin, or does not end, with white space. *)
Definition cleanStart (s : list N) : Prop :=
  match s with [] => True | c :: _ => JS.isWhiteSpace c = false end.

Definition cleanEnd (s : list N) : Prop := cleanStart (rev s).

(** A string [trim] leaves alone. *)
Definition trimmed (s : list N) : Prop := cleanStart s /\ cleanEnd s.

(** [p] occurs somewhere inside [s]. *)
Definition occursIn (p s : list N) : Prop := exists a b, s = a ++ p ++ b.

(** [code] is the first entry of [codes], in order, whose trimmed value is a
    prefix of [name]. *)
Definition firstPrefixCode (codes : list (list N)) (name code : list N) : Prop :=
  exists before after,
    codes = before ++ code :: after /\
    Forall (fun c => ~ JS.trim c `prefix_of` name) before /\
    JS.trim code `prefix_of` name.

Definition noPrefixCode (codes : list (list N)) (name : list N) : Prop :=
  Forall (fun c => ~ JS.trim c `prefix_of` name) codes.

(** The images the first loop leaves unmatched: those for which the scan
    found nothing (or found the empty string). *)
Definition unmatchedBy (codes : list (list N)) (image : ProcessedImage) : bool :=
  match matchingCode codes image with
  | Some code => negb (JS.truthy code)
  | None => true
  end.

(** Sample data for the worked examples. *)
Module Sample.

Definition image (i name : String.string) (s : Status) : ProcessedImage :=
  {| id := JS.lit i;
     file := {| file_name := JS.lit name; file_bytes := [] |};
     previewUrl := JS.lit "blob:preview";
     originalName := JS.lit name;
     newName := JS.lit "";
     status := s;
     errorMessage := None |}.

Definition state (codes : list N) (images : list ProcessedImage) : AppState :=
  {| st_images := images; st_itemCodes := codes;
     st_error := None; st_isProcessing := false |}.

(** Two lines, [A1] and [A2]. *)
Definition twoCodes : list N := JS.lit "A1" ++ [JS.LF] ++ JS.lit "A2".

Definition twoImages : list ProcessedImage :=
  [image "1" "A1_x.jpg" pending; image "2" "B_y.jpg" pending].

(** An item renamed by an earlier run, and two pending ones. *)
Definition renamedImage : ProcessedImage :=
  {| id := JS.lit "0";
     file := {| file_name := JS.lit "A0_old.jpg"; file_bytes := [] |};
     previewUrl := JS.lit "blob:preview";
     originalName := JS.lit "A0_old.jpg";
     newName := JS.lit "A0_side.jpg";
     status := completed;
     errorMessage := None |}.

Definition mixedImages : list ProcessedImage :=
  [renamedImage; image "1" "A1_x.jpg" pending; image "2" "A2_y.jpg" pending].

(** One generically named photo, selected into the empty application, and
    a single code typed. *)
Definition photo : Selected :=
  {| sel_file := {| file_name := JS.lit "photo1.jpg"; file_bytes := [] |};
     sel_now := 1700000000000;
     sel_random := JS.lit "0.5";
     sel_url := JS.lit "blob:preview" |}.

Definition photoCall : RenameCall :=
  {| call_id := JS.lit "photo1.jpg-1700000000000-0.5";
     call_file := {| file_name := JS.lit "photo1.jpg"; file_bytes := [] |};
     call_code := JS.lit "L41086600" |}.

(** That photo, once its call was rejected with [quota exceeded]. *)
Definition failedPhoto : ProcessedImage :=
  {| id := JS.lit "photo1.jpg-1700000000000-0.5";
     file := {| file_name := JS.lit "photo1.jpg"; file_bytes := [] |};
     previewUrl := JS.lit "blob:preview";
     originalName := JS.lit "photo1.jpg";
     newName := JS.lit "";
     status := error;
     errorMessage := Some (JS.lit "quota exceeded") |}.

Definition call (i name code : String.string) : RenameCall :=
  {| call_id := JS.lit i;
     call_file := {| file_name := JS.lit name; file_bytes := [] |};
     call_code := JS.lit code |}.

(** The second call is rejected first, then the first one is fulfilled. *)
Definition settledCalls : list (RenameCall * Settlement) :=
  [(call "2" "A2_y.jpg" "A2", Rejected (ErrorInstance (JS.lit "quota exceeded")));
   (call "1" "A1_x.jpg" "A1", Fulfilled (JS.lit " A1_front.jpg "))].

End Sample.

(** The [pending -> processing] step of lines 79-81, on one item. *)
Definition toProcessing (img : ProcessedImage) : ProcessedImage :=
  if is_pending img then with_status processing img else img.

(** What the callbacks of a settled call make of the item they target. *)
Definition settleItem (r : Settlement) (img : ProcessedImage) : ProcessedImage :=
  match r with
  | Fulfilled name => with_newName (JS.trim name) (with_status completed img)
  | Rejected reason => with_errorMessage (rejectionMessage reason) (with_status error img)
  end.

(** The settled call, if any, whose callbacks target the id [i]. *)
Definition settlementFor (settled : list (RenameCall * Settlement)) (i : list N)
  : option (RenameCall * Settlement) :=
  List.find (fun cr => same_id i (call_id (fst cr))) settled.

Definition afterSettled (settled : list (RenameCall * Settlement))
    (img : ProcessedImage) : ProcessedImage :=
  match settlementFor settled (id img) with
  | Some cr => settleItem (snd cr) img
  | None => img
  end.

(** The call launched for an image that has an assignment. *)
Definition callFor (imageToCodeMap : gmap (list N) (list N)) (image : ProcessedImage)
  : RenameCall :=
  {| call_id := id image; call_file := file image;
     call_code := default [] (imageToCodeMap !! id image) |}.

(** The [setImages] updates among a list of queued updates. *)
Definition imagesUpdates (es : list Effect) : list ImagesUpdate :=
  omap (fun e => match e with setImages u => Some u | _ => None end) es.

Definition startEffects : list Effect :=
  [setError None; setIsProcessing true; setImages MarkProcessing].

(** The state of a run after the first [n] of its queued updates. *)
Definition stateAfter (n : nat) (st : AppState)
    (settled : list (RenameCall * Settlement)) : AppState :=
  runEffects (firstn n (runUpdates (handleProcessImages st) settled)) st.

(** ** The states the application goes through *)

Definition initialState : AppState :=
  {| st_images := []; st_itemCodes := JS.lit ""; st_error := None;
     st_isProcessing := false |}.

(** The controls are disabled while [isProcessing] holds, so every user
    action starts from a state where it does not. Files get distinct ids
    (timestamp and random number). A run is observed after any number of
    its updates. *)
Inductive Reachable : AppState -> Prop :=
| reach_initial : Reachable initialState
| reach_files st files :
    Reachable st -> st_isProcessing st = false ->
    NoDup (List.map id (st_images st ++ List.map newImage files)) ->
    Reachable (runEffects (handleFilesSelected files) st)
| reach_codes st value :
    Reachable st -> st_isProcessing st = false ->
    Reachable (runEffect st (setItemCodes value))
| reach_clear st :
    Reachable st -> st_isProcessing st = false ->
    Reachable (runEffects handleClear st)
| reach_process st settled n :
    Reachable st -> st_isProcessing st = false ->
    settles (handleProcessImages st) settled ->
    Reachable (stateAfter n st settled).

(** What the fields of an item hold, by status. *)
Definition itemConsistent (img : ProcessedImage) : Prop :=
  match status img with
  | pending | processing => newName img = [] /\ errorMessage img = None
  | completed => errorMessage img = None /\ trimmed (newName img)
  | error => newName img = [] /\ errorMessage img <> None
  end.

(** Distinct ids, and fields that agree with the status. *)
Definition wellFormed (st : AppState) : Prop :=
  NoDup (List.map id (st_images st)) /\
  Forall itemConsistent (st_images st).




(** ** The rest of the component: counters, export, preview URLs *)

Definition is_completed (img : ProcessedImage) : bool :=
  bool_decide (status img = completed).

(** Lines 151-152. *)
Definition pendingImagesCount (st : AppState) : nat :=
  length (List.filter is_pending (st_images st)).

Definition completedImagesCount (st : AppState) : nat :=
  length (List.filter is_completed (st_images st)).

(** What is rendered: the three buttons (lines 163, 172, 218). *)
Definition showsDownloadButton (st : AppState) : bool :=
  (0 <? completedImagesCount st)%nat.

Definition showsClearButton (st : AppState) : bool :=
  (0 <? length (st_images st))%nat.

Definition showsProcessButton (st : AppState) : bool :=
  (0 <? pendingImagesCount st)%nat.

(** [handleDownloadAll] (lines 129-149), up to the archive library: the
    [zip.file(name, data)] calls it makes, in order, or nothing when it
    returns at line 133. *)
Definition handleDownloadAll (st : AppState) : option (list (list N * File)) :=
  let completedImages := List.filter is_completed (st_images st) in
  if (length completedImages =? 0)%nat then None
  else Some (List.map (fun image => (newName image, file image)) completedImages).

(** The name of an image starts with the trimmed value of no code. *)
Definition startsWithNoCode (codes : list (list N)) (image : ProcessedImage) : bool :=
  negb (existsb (fun code => JS.startsWith (originalName image) (JS.trim code)) codes).

(** The fields of an item that say which upload it is. *)
Definition upload (img : ProcessedImage) : list N * File * list N * list N :=
  (id img, file img, previewUrl img, originalName img).

Definition is_terminal (img : ProcessedImage) : bool :=
  bool_decide (status img = completed) || bool_decide (status img = error).

(** Object URLs: [URL.revokeObjectURL(url)] releases one live handle. *)
Fixpoint revokeObjectURL (url : list N) (live : list (list N)) : list (list N) :=
  match live with
  | [] => []
  | u :: rest => if bool_decide (u = url) then rest else u :: revokeObjectURL url rest
  end.

(** Line 20: the handles [handleFilesSelected] creates, one per file. *)
Definition createdBySelect (files : list Selected) : list (list N) :=
  List.map sel_url files.

(** Line 123: the handles [handleClear] revokes, in order. *)
Definition revokedByClear (st : AppState) : list (list N) :=
  List.map previewUrl (st_images st).

(** The states the application goes through, with the preview handles that
    are live in each. *)
Inductive Tracked : AppState -> list (list N) -> Prop :=
| tracked_initial : Tracked initialState []
| tracked_files st live files :
    Tracked st live -> st_isProcessing st = false ->
    Tracked (runEffects (handleFilesSelected files) st) (live ++ createdBySelect files)
| tracked_codes st live value :
    Tracked st live -> st_isProcessing st = false ->
    Tracked (runEffect st (setItemCodes value)) live
| tracked_clear st live :
    Tracked st live -> st_isProcessing st = false ->
    Tracked (runEffects handleClear st)
            (fold_left (fun l url => revokeObjectURL url l) (revokedByClear st) live)
| tracked_process st live settled n :
    Tracked st live -> st_isProcessing st = false ->
    settles (handleProcessImages st) settled ->
    Tracked (stateAfter n st settled) live.

(** * Facts about the string primitives *)

Module JSFacts.

Lemma startsWith_prefix (s p : list N) :
  JS.startsWith s p = true <-> p `prefix_of` s.
Proof.
  revert s. induction p as [|c p IH]; intros s; simpl.
  - split; [intros _; apply prefix_nil | reflexivity].
  - destruct s as [|d s].
    + split; [discriminate | intros H; apply prefix_nil_not in H; contradiction].
    + rewrite andb_true_iff, N.eqb_eq, IH. split.
      * intros [-> H]. by apply prefix_cons.
      * intros H. split.
        -- by apply prefix_cons_inv_1 in H.
        -- by apply prefix_cons_inv_2 in H.
Qed.

Lemma startsWith_not_prefix (s p : list N) :
  JS.startsWith s p = false <-> ¬ p `prefix_of` s.
Proof.
  rewrite <- startsWith_prefix. destruct (JS.startsWith s p); split; congruence.
Qed.

Lemma trimStart_clean s : cleanStart (JS.trimStart s).
Proof.
  induction s as [|c s IH]; simpl; [exact I|].
  destruct (JS.isWhiteSpace c) eqn:E; [exact IH | exact E].
Qed.


Lemma trimStart_split s :
  exists a, s = a ++ JS.trimStart s /\ Forall (fun c => JS.isWhiteSpace c = true) a.
Proof.
  induction s as [|c s (a & E & Ha)]; simpl.
  - exists []. split; [reflexivity | constructor].
  - destruct (JS.isWhiteSpace c) eqn:Ec.
    + exists (c :: a). split; [simpl; congruence | by constructor].
    + exists []. split; [reflexivity | constructor].
Qed.

Lemma trimStart_snoc l c :
  JS.isWhiteSpace c = false -> JS.trimStart (l ++ [c]) = JS.trimStart l ++ [c].
Proof.
  intros Hc. induction l as [|d l IH]; simpl.
  - by rewrite Hc.
  - destruct (JS.isWhiteSpace d); [exact IH | reflexivity].
Qed.

Lemma trimEnd_clean s : cleanEnd (JS.trimEnd s).
Proof. unfold cleanEnd, JS.trimEnd. rewrite rev_involutive. apply trimStart_clean. Qed.


Lemma trimEnd_keeps_cleanStart s : cleanStart s -> cleanStart (JS.trimEnd s).
Proof.
  destruct s as [|c s]; [intros _; exact I|]. simpl. intros Hc.
  unfold JS.trimEnd. simpl rev.
  rewrite (trimStart_snoc _ _ Hc), rev_app_distr. simpl. exact Hc.
Qed.

Lemma trimEnd_split s :
  exists b, s = JS.trimEnd s ++ b /\ Forall (fun c => JS.isWhiteSpace c = true) b.
Proof.
  destruct (trimStart_split (rev s)) as (a & E & Ha).
  exists (rev a). split.
  - unfold JS.trimEnd. rewrite <- rev_app_distr, <- E. symmetry. apply rev_involutive.
  - by apply List.Forall_rev.
Qed.

Lemma trim_cleanStart s : cleanStart (JS.trim s).
Proof. apply trimEnd_keeps_cleanStart, trimStart_clean. Qed.

Lemma trim_cleanEnd s : cleanEnd (JS.trim s).
Proof. apply trimEnd_clean. Qed.

(** [trim] removes a run of white space at each end, and nothing else. *)
Lemma trim_split s :
  exists a b, s = a ++ JS.trim s ++ b /\
              Forall (fun c => JS.isWhiteSpace c = true) a /\
              Forall (fun c => JS.isWhiteSpace c = true) b.
Proof.
  destruct (trimStart_split s) as (a & Ea & Ha).
  destruct (trimEnd_split (JS.trimStart s)) as (b & Eb & Hb).
  exists a, b. repeat split; try assumption.
  unfold JS.trim. rewrite <- Eb. exact Ea.
Qed.



Lemma trim_nonempty_truthy s : JS.trim s <> [] -> JS.truthy s = true.
Proof. destruct s; [intros H; by elim H | reflexivity]. Qed.

Lemma truthy_nonempty s : JS.truthy s = true <-> s <> [].
Proof. destruct s; simpl; split; congruence. Qed.

Lemma split_nonempty sep s : JS.split sep s <> [].
Proof.
  induction s as [|c s IH]; simpl; [discriminate|].
  destruct (c =? sep); [discriminate|].
  destruct (JS.split sep s); discriminate.
Qed.




End JSFacts.

(** * The code list *)

Section Codes.

Lemma parseCodes_In raw c :
  In c (parseCodes raw) <-> In c (JS.split JS.LF raw) /\ JS.trim c <> [].
Proof.
  unfold parseCodes. rewrite filter_In, negb_true_iff, bool_decide_eq_false.
  reflexivity.
Qed.

Lemma parseCodes_nonblank raw : Forall (fun c => JS.trim c <> []) (parseCodes raw).
Proof. apply List.Forall_forall. intros c Hc. by apply parseCodes_In in Hc as [_ ?]. Qed.

Lemma parseCodes_truthy raw : Forall (fun c => JS.truthy c = true) (parseCodes raw).
Proof.
  eapply List.Forall_impl; [|apply parseCodes_nonblank].
  intros c. apply JSFacts.trim_nonempty_truthy.
Qed.

Lemma filter_sublist {A} (f : A -> bool) (l : list A) : List.filter f l `sublist_of` l.
Proof.
  induction l as [|x l IH]; simpl; [constructor|].
  destruct (f x); by constructor.
Qed.

Lemma split_app sep a b :
  JS.split sep (a ++ sep :: b) = JS.split sep a ++ JS.split sep b.
Proof.
  induction a as [|c a IH]; simpl.
  - by rewrite N.eqb_refl.
  - destruct (c =? sep); [by rewrite IH|]. rewrite IH.
    pose proof (JSFacts.split_nonempty sep a) as Hne.
    by destruct (JS.split sep a).
Qed.


End Codes.



(** * The matcher *)

Section Matcher.

Variable codes : list (list N).

Lemma find_first {A} (f : A -> bool) (l : list A) (x : A) :
  List.find f l = Some x ->
  exists l1 l2, l = l1 ++ x :: l2 /\ Forall (fun y => f y = false) l1 /\ f x = true.
Proof.
  induction l as [|y l IH]; simpl; [discriminate|].
  destruct (f y) eqn:E.
  - intros [= ->]. exists [], l. by repeat split.
  - intros H. destruct (IH H) as (l1 & l2 & -> & Hl1 & Hx).
    exists (y :: l1), l2. repeat split; [|exact Hx]. by constructor.
Qed.

Lemma matchingCode_Some image code :
  matchingCode codes image = Some code ->
  firstPrefixCode codes (originalName image) code.
Proof.
  intros H. apply find_first in H as (l1 & l2 & E & Hl1 & Hc).
  exists l1, l2. repeat split; [exact E | | by apply JSFacts.startsWith_prefix].
  eapply List.Forall_impl; [|exact Hl1].
  intros c. apply JSFacts.startsWith_not_prefix.
Qed.

Lemma matchingCode_None image :
  matchingCode codes image = None -> noPrefixCode codes (originalName image).
Proof.
  intros H. apply List.Forall_forall. intros c Hc.
  apply JSFacts.startsWith_not_prefix. exact (find_none _ _ H c Hc).
Qed.

Lemma matchingCode_In image code : matchingCode codes image = Some code -> In code codes.
Proof. intros H. by apply find_some in H as [? _]. Qed.

(** Whether the first loop records an assignment for the image. *)
Lemma firstPass_snoc pendingImages image :
  firstPass codes (pendingImages ++ [image])
  = firstPassStep codes (firstPass codes pendingImages) image.
Proof. unfold firstPass. by rewrite fold_left_app. Qed.

(** Only ids of the images scanned are keys of the map. *)
Lemma firstPass_keys pendingImages i :
  is_Some (fst (firstPass codes pendingImages) !! i) -> In i (List.map id pendingImages).
Proof.
  induction pendingImages as [|image l IH] using rev_ind.
  - unfold firstPass. simpl. rewrite lookup_empty. by intros [? ?].
  - rewrite firstPass_snoc, List.map_app, in_app_iff. unfold firstPassStep.
    destruct (matchingCode codes image) as [code|]; [destruct (JS.truthy code)|];
      simpl; auto.
    destruct (decide (id image = i)) as [<-|Hne]; [auto|].
    rewrite lookup_insert_ne by done. auto.
Qed.

(** Every value of the map is the trimmed value of a code of the list. *)
Lemma firstPass_values pendingImages i v :
  fst (firstPass codes pendingImages) !! i = Some v ->
  exists code, In code codes /\ v = JS.trim code.
Proof.
  induction pendingImages as [|image l IH] using rev_ind.
  - unfold firstPass. simpl. by rewrite lookup_empty.
  - rewrite firstPass_snoc. unfold firstPassStep.
    destruct (matchingCode codes image) as [code|] eqn:E;
      [destruct (JS.truthy code)|]; simpl; auto.
    destruct (decide (id image = i)) as [<-|Hne].
    + rewrite lookup_insert_eq. intros [= <-]. exists code.
      split; [by eapply matchingCode_In | reflexivity].
    + rewrite lookup_insert_ne by done. auto.
Qed.

Lemma firstPass_unmatched pendingImages :
  snd (firstPass codes pendingImages) = List.filter (unmatchedBy codes) pendingImages.
Proof.
  induction pendingImages as [|image l IH] using rev_ind; [reflexivity|].
  rewrite firstPass_snoc, List.filter_app. unfold firstPassStep, unmatchedBy. simpl.
  destruct (matchingCode codes image) as [code|]; [destruct (JS.truthy code)|];
    simpl; rewrite IH; by rewrite ?app_nil_r.
Qed.

(** With distinct ids, the entry of an image is decided by its own scan. *)
Lemma firstPass_lookup pendingImages image :
  NoDup (List.map id pendingImages) -> In image pendingImages ->
  fst (firstPass codes pendingImages) !! id image
  = match matchingCode codes image with
    | Some code => if JS.truthy code then Some (JS.trim code) else None
    | None => None
    end.
Proof.
  induction pendingImages as [|x l IH] using rev_ind; [intros _ []|].
  rewrite List.map_app. simpl. intros Hnd Hin.
  apply NoDup_app in Hnd as (Hl & Hx & _).
  assert (Hfresh : ~ In (id x) (List.map id l)).
  { intros Hi. apply (Hx (id x)); [by apply list_elem_of_In | left]. }
  rewrite firstPass_snoc. apply in_app_iff in Hin as [Hin|[<-|[]]].
  - assert (Hne : id x <> id image).
    { intros E. apply Hfresh. rewrite E. by apply in_map. }
    rewrite <- (IH Hl Hin). unfold firstPassStep.
    destruct (matchingCode codes x) as [code|]; [destruct (JS.truthy code)|];
      simpl; try reflexivity.
    by rewrite lookup_insert_ne.
  - assert (Hnone : fst (firstPass codes l) !! id x = None).
    { destruct (fst (firstPass codes l) !! id x) eqn:E; [|reflexivity].
      elim Hfresh. apply firstPass_keys. by rewrite E. }
    unfold firstPassStep.
    destruct (matchingCode codes x) as [code|]; [destruct (JS.truthy code)|];
      simpl; try exact Hnone.
    apply lookup_insert_eq.
Qed.

(** The second loop, on its own. *)
Lemma assignAll_lookup (singleCode : list N) (unmatched : list ProcessedImage)
    (m : gmap (list N) (list N)) (i : list N) :
  fold_left (fun m image => <[id image := singleCode]> m) unmatched m !! i
  = if bool_decide (i ∈ List.map id unmatched) then Some singleCode else m !! i.
Proof.
  revert m. induction unmatched as [|x l IH]; intros m; simpl.
  - reflexivity.
  - rewrite IH. destruct (decide (i ∈ List.map id l)) as [Hin|Hin].
    + rewrite !bool_decide_eq_true_2; [reflexivity | by right | exact Hin].
    + rewrite (bool_decide_eq_false_2 _ Hin).
      destruct (decide (id x = i)) as [E|Hne].
      * rewrite bool_decide_eq_true_2 by (subst i; left).
        subst i. apply lookup_insert_eq.
      * rewrite bool_decide_eq_false_2.
        -- by apply lookup_insert_ne.
        -- intros H. apply elem_of_cons in H as [?|?]; [congruence | done].
Qed.

(** An image the scan matched has an entry, whatever the ids. *)
Lemma firstPass_matched_present pendingImages image :
  In image pendingImages -> unmatchedBy codes image = false ->
  is_Some (fst (firstPass codes pendingImages) !! id image).
Proof.
  induction pendingImages as [|x l IH] using rev_ind; [intros []|].
  intros Hin Hm. rewrite firstPass_snoc.
  assert (Hstep : forall acc, is_Some (fst acc !! id image) ->
                   is_Some (fst (firstPassStep codes acc x) !! id image)).
  { intros acc Hacc. unfold firstPassStep.
    destruct (matchingCode codes x) as [code|]; [destruct (JS.truthy code)|];
      simpl; try exact Hacc.
    destruct (decide (id x = id image)) as [->|Hne].
    - rewrite lookup_insert_eq. by eexists.
    - by rewrite lookup_insert_ne. }
  apply in_app_iff in Hin as [Hin|[<-|[]]]; [by apply Hstep, IH|].
  unfold firstPassStep. unfold unmatchedBy in Hm.
  destruct (matchingCode codes x) as [code|]; [|discriminate].
  destruct (JS.truthy code); [|discriminate]. simpl.
  rewrite lookup_insert_eq. by eexists.
Qed.

End Matcher.

Lemma NoDup_map_filter {A B} (f : A -> B) (p : A -> bool) (l : list A) :
  NoDup (List.map f l) -> NoDup (List.map f (List.filter p l)).
Proof.
  induction l as [|x l IH]; simpl; [done|].
  intros H. apply NoDup_cons in H as [Hx Hl].
  destruct (p x); simpl; [|by apply IH].
  apply NoDup_cons. split; [|by apply IH].
  intros Hin. apply Hx. apply list_elem_of_In in Hin. apply list_elem_of_In.
  apply in_map_iff in Hin as (y & <- & Hy). apply in_map.
  by apply filter_In in Hy as [? _].
Qed.

(** C1: for a list of non-empty codes, the first pass gives a pending item
    the first code of the list, in order, whose trimmed value is a prefix of
    its original name (an exact comparison of code units, on the whole
    name), and leaves it in the unmatched set when no code is such a
    prefix. Ids are taken distinct, as the data model has them. *)
Theorem C1_first_pass_takes_first_prefix_code
    (codes : list (list N)) (images : list ProcessedImage) (image : ProcessedImage) :
  Forall (fun code => code <> []) codes ->
  NoDup (List.map id images) -> In image images -> status image = pending ->
  let pendingImages := List.filter is_pending images in
  let imageToCodeMap := fst (firstPass codes pendingImages) in
  let unmatchedImages := snd (firstPass codes pendingImages) in
  (exists code,
      firstPrefixCode codes (originalName image) code /\
      imageToCodeMap !! id image = Some (JS.trim code) /\
      ~ In image unmatchedImages)
  \/ (noPrefixCode codes (originalName image) /\
      imageToCodeMap !! id image = None /\
      In image unmatchedImages).
Proof.
  intros Hcodes Hnd Hin Hst pendingImages imageToCodeMap unmatchedImages.
  assert (Hp : In image pendingImages).
  { apply filter_In. split; [exact Hin|]. by apply bool_decide_eq_true. }
  assert (Hlk := firstPass_lookup codes pendingImages image
                   (NoDup_map_filter id is_pending images Hnd) Hp).
  fold imageToCodeMap in Hlk.
  assert (Hun : unmatchedImages = List.filter (unmatchedBy codes) pendingImages)
    by apply firstPass_unmatched.
  destruct (matchingCode codes image) as [code|] eqn:E.
  - left. exists code.
    assert (Ht : JS.truthy code = true).
    { apply JSFacts.truthy_nonempty. rewrite List.Forall_forall in Hcodes.
      apply Hcodes. by eapply matchingCode_In. }
    rewrite Ht in Hlk. repeat split; [by apply matchingCode_Some | exact Hlk |].
    rewrite Hun, filter_In. unfold unmatchedBy. rewrite E, Ht. simpl.
    intros [_ ?]. discriminate.
  - right. repeat split; [by apply matchingCode_None | exact Hlk |].
    rewrite Hun. apply filter_In. split; [exact Hp|].
    unfold unmatchedBy. by rewrite E.
Qed.

Lemma C1_first_pass_witness :
  let codes := parseCodes Sample.twoCodes in
  let image := Sample.image "1" "A1_x.jpg" pending in
  let pendingImages := List.filter is_pending Sample.twoImages in
  (exists code,
      firstPrefixCode codes (originalName image) code /\
      fst (firstPass codes pendingImages) !! id image = Some (JS.trim code) /\
      ~ In image (snd (firstPass codes pendingImages)))
  \/ (noPrefixCode codes (originalName image) /\
      fst (firstPass codes pendingImages) !! id image = None /\
      In image (snd (firstPass codes pendingImages))).
Proof.
  apply (C1_first_pass_takes_first_prefix_code
           (parseCodes Sample.twoCodes) Sample.twoImages
           (Sample.image "1" "A1_x.jpg" pending)).
  - vm_compute. repeat constructor; discriminate.
  - apply (bool_decide_unpack _). vm_compute. exact I.
  - left. reflexivity.
  - reflexivity.
Defined.

(** C2: when the first pass leaves items unmatched and the list has exactly
    one code, that code, trimmed, is assigned to each of them, so that with
    a one-element list every pending item has an assignment and none is
    left unmatched; with more than one code the second pass changes
    nothing. *)
Theorem C2_single_code_fallback
    (codes : list (list N)) (pendingImages : list ProcessedImage) :
  let first := firstPass codes pendingImages in
  let final := secondPass codes first in
  (forall code, codes = [code] ->
     snd final = [] /\
     (forall image, In image (snd first) ->
                    fst final !! id image = Some (JS.trim code)) /\
     (forall image, In image pendingImages ->
                    fst final !! id image = Some (JS.trim code))) /\
  ((1 < length codes)%nat -> final = first).
Proof.
  intros first final. split.
  - intros code ->.
    assert (Hfirst : forall image, In image pendingImages ->
              In image (snd first) \/ fst first !! id image = Some (JS.trim code)).
    { intros image Hin.
      destruct (unmatchedBy [code] image) eqn:Hm.
      - left. unfold first. rewrite firstPass_unmatched. by apply filter_In.
      - right. destruct (firstPass_matched_present [code] _ _ Hin Hm) as [v Hv].
        fold first in Hv. rewrite Hv.
        apply firstPass_values in Hv as (c & [<-|[]] & ->). reflexivity. }
    assert (Hsub : forall image, In image (snd first) -> In image pendingImages).
    { intros image. unfold first. rewrite firstPass_unmatched, filter_In. tauto. }
    unfold final, secondPass.
    destruct (snd first) as [|u us] eqn:Hu.
    + cbn [length Nat.ltb Nat.leb andb]. split; [exact Hu|].
      split; [intros ? []|].
      intros image Hin. by destruct (Hfirst image Hin) as [[]|?].
    + cbn [length Nat.ltb Nat.leb Nat.eqb andb hd fst snd].
      assert (Hun : forall image, In image (u :: us) ->
                fold_left (fun m image => <[id image := JS.trim code]> m) (u :: us) (fst first)
                  !! id image = Some (JS.trim code)).
      { intros image Hin. rewrite assignAll_lookup, bool_decide_eq_true_2; [done|].
        apply list_elem_of_In. by apply in_map. }
      repeat split; [exact Hun|].
      intros image Hin. destruct (Hfirst image Hin) as [Hi|Hi]; [by apply Hun|].
      rewrite assignAll_lookup. by destruct (bool_decide _).
  - intros Hlen. unfold final, secondPass.
    destruct (length codes =? 1)%nat eqn:E.
    + apply Nat.eqb_eq in E. lia.
    + by rewrite andb_false_r.
Qed.

Lemma C2_single_code_fallback_witness :
  let codes := [JS.lit "L41086600"] in
  let pendingImages := [Sample.image "1" "photo1.jpg" pending] in
  snd (firstPass codes pendingImages) = pendingImages /\
  snd (secondPass codes (firstPass codes pendingImages)) = [] /\
  fst (secondPass codes (firstPass codes pendingImages)) !! JS.lit "1"
    = Some (JS.lit "L41086600").
Proof.
  destruct (C2_single_code_fallback
              [JS.lit "L41086600"] [Sample.image "1" "photo1.jpg" pending]) as [H _].
  destruct (H (JS.lit "L41086600") eq_refl) as (H1 & H2 & _).
  split; [reflexivity|]. split; [exact H1|].
  apply (H2 (Sample.image "1" "photo1.jpg" pending)). left. reflexivity.
Defined.

(** * The gates of [handleProcessImages] *)

Section Gates.

Lemma runEffects_app es1 es2 st :
  runEffects (es1 ++ es2) st = runEffects es2 (runEffects es1 st).
Proof. unfold runEffects. apply fold_left_app. Qed.

Lemma filter_nil_iff {A} (f : A -> bool) (l : list A) :
  List.filter f l = [] <-> forall x, In x l -> f x = false.
Proof.
  induction l as [|y l IH]; simpl; [tauto|].
  destruct (f y) eqn:E.
  - split; [discriminate|]. intros H. specialize (H y (or_introl eq_refl)). congruence.
  - rewrite IH. split.
    + intros H x [<-|Hx]; auto.
    + intros H x Hx. apply H. by right.
Qed.

Lemma no_pending_filter images :
  (forall img, In img images -> status img <> pending) <->
  List.filter is_pending images = [].
Proof.
  rewrite filter_nil_iff. unfold is_pending.
  split; intros H img Hin; specialize (H img Hin).
  - by apply bool_decide_eq_false.
  - by apply bool_decide_eq_false in H.
Qed.

Lemma some_pending_filter images :
  (exists img, In img images /\ status img = pending) ->
  List.filter is_pending images <> [].
Proof.
  intros (img & Hin & Hst) E.
  assert (H : In img (List.filter is_pending images)).
  { apply filter_In. split; [exact Hin | by apply bool_decide_eq_true]. }
  rewrite E in H. destruct H.
Qed.

Lemma length_eqb_0 {A} (l : list A) : (length l =? 0)%nat = bool_decide (l = []).
Proof. by destruct l. Qed.

Lemma length_ltb_0 {A} (l : list A) : (0 <? length l)%nat = negb (bool_decide (l = [])).
Proof. by destruct l. Qed.

(** A line made of white space only trims to the empty string. *)
Lemma trimStart_blank s :
  Forall (fun c => JS.isWhiteSpace c = true) s -> JS.trimStart s = [].
Proof. induction 1 as [|c s Hc _ IH]; simpl; [reflexivity | by rewrite Hc]. Qed.

Lemma trim_blank s : Forall (fun c => JS.isWhiteSpace c = true) s -> JS.trim s = [].
Proof. intros H. unfold JS.trim, JS.trimEnd. by rewrite (trimStart_blank _ H). Qed.

Lemma split_chars sep s l c : In l (JS.split sep s) -> In c l -> In c s.
Proof.
  revert l. induction s as [|d s IH]; simpl; intros l.
  - intros [<-|[]] [].
  - destruct (d =? sep).
    + intros [<-|Hl]; [intros [] | right; eauto].
    + pose proof (JSFacts.split_nonempty sep s) as Hne.
      destruct (JS.split sep s) as [|l0 ls]; [by elim Hne|].
      intros [<-|Hl] Hc.
      * destruct Hc as [->|Hc]; [by left | right]. apply (IH l0); [by left | exact Hc].
      * right. apply (IH l); [by right | exact Hc].
Qed.

(** Blank raw input parses to the empty code list. *)
Lemma parseCodes_blank raw :
  Forall (fun c => JS.isWhiteSpace c = true) raw -> parseCodes raw = [].
Proof.
  intros H. unfold parseCodes. apply filter_nil_iff. intros l Hl.
  rewrite negb_false_iff, bool_decide_eq_true. apply trim_blank.
  apply List.Forall_forall. intros c Hc.
  rewrite List.Forall_forall in H. apply H. by eapply split_chars.
Qed.

Lemma join_occurs sep names name :
  In name names -> occursIn name (JS.join sep names).
Proof.
  induction names as [|p ps IH]; [intros []|].
  intros [->|Hin].
  - destruct ps as [|q ps].
    + exists [], []. simpl. by rewrite app_nil_r.
    + exists [], (sep ++ JS.join sep (q :: ps)). reflexivity.
  - destruct ps as [|q ps]; [destruct Hin|].
    destruct (IH Hin) as (a & b & E).
    exists (p ++ sep ++ a), b.
    change (JS.join sep (p :: q :: ps)) with (p ++ sep ++ JS.join sep (q :: ps)).
    rewrite E. by rewrite <- !app_assoc.
Qed.

Lemma matchImages_nil codes : snd (matchImages codes []) = [].
Proof. unfold matchImages, secondPass, firstPass. simpl. reflexivity. Qed.

End Gates.

(** C9: when no item is pending, the action returns at once: it queues no
    update at all, so no error is shown (nor cleared) and the state after
    it is the state before it, also when the code list is empty or blank. *)
Theorem C9_nothing_pending_returns_silently
    (st : AppState) (settled : list (RenameCall * Settlement)) :
  (forall img, In img (st_images st) -> status img <> pending) ->
  handleProcessImages st = Return [] /\ processImages st settled = st.
Proof.
  intros H. apply no_pending_filter in H.
  assert (E : handleProcessImages st = Return []).
  { unfold handleProcessImages. by rewrite H. }
  split; [exact E|]. unfold processImages. by rewrite E.
Qed.

Lemma C9_nothing_pending_witness :
  let st := Sample.state (JS.lit "   ") [Sample.image "1" "A1_x.jpg" completed] in
  handleProcessImages st = Return [] /\ processImages st [] = st.
Proof.
  apply C9_nothing_pending_returns_silently.
  intros img [<-|[]]. discriminate.
Defined.

(** C7: the action is invoked by the Process button, which is rendered only
    when an item is pending. For every such invocation in which the code
    list is empty after parsing (blank raw input included), the action
    queues the single update that shows the no-codes message and returns:
    matching is not reached, nothing is launched, the processing flag and
    every item are as before. The message is never the one of the unmatched
    gate. *)
Theorem C7_no_codes_is_reported_first
    (st : AppState) (settled : list (RenameCall * Settlement)) :
  showsProcessButton st = true ->
  parseCodes (st_itemCodes st) = [] ->
  handleProcessImages st = Return [setError (Some noCodesMessage)] /\
  st_error (processImages st settled) = Some noCodesMessage /\
  st_images (processImages st settled) = st_images st /\
  st_isProcessing (processImages st settled) = st_isProcessing st /\
  st_itemCodes (processImages st settled) = st_itemCodes st /\
  (forall unmatched, noCodesMessage <> unmatchedMessage unmatched) /\
  (Forall (fun c => JS.isWhiteSpace c = true) (st_itemCodes st) ->
   parseCodes (st_itemCodes st) = []).
Proof.
  intros Hb Hc.
  assert (Hp : List.filter is_pending (st_images st) <> []).
  { intros E. unfold showsProcessButton, pendingImagesCount in Hb.
    rewrite E in Hb. discriminate. }
  assert (E : handleProcessImages st = Return [setError (Some noCodesMessage)]).
  { unfold handleProcessImages. rewrite Hc, length_eqb_0.
    by rewrite bool_decide_eq_false_2. }
  unfold processImages. rewrite E. simpl.
  repeat split; [discriminate | apply parseCodes_blank].
Qed.

Lemma C7_no_codes_witness :
  let st := Sample.state (JS.lit "   ") Sample.twoImages in
  handleProcessImages st = Return [setError (Some noCodesMessage)] /\
  st_error (processImages st []) = Some noCodesMessage /\
  st_images (processImages st []) = st_images st /\
  st_isProcessing (processImages st []) = st_isProcessing st /\
  st_itemCodes (processImages st []) = st_itemCodes st /\
  (forall unmatched, noCodesMessage <> unmatchedMessage unmatched) /\
  (Forall (fun c => JS.isWhiteSpace c = true) (st_itemCodes st) ->
   parseCodes (st_itemCodes st) = []).
Proof.
  apply (C7_no_codes_is_reported_first (Sample.state (JS.lit "   ") Sample.twoImages) []).
  - reflexivity.
  - reflexivity.
Defined.

(** C3: when items remain unmatched after both passes, the action queues
    the single update that shows the unmatched message and returns: the
    message holds the first three unmatched original names at most, and the
    count of the others when there are more; nothing is launched, the
    processing flag and every item are as before, the items that did match
    included. *)
Theorem C3_unmatched_items_fail_the_whole_run
    (st : AppState) (settled : list (RenameCall * Settlement)) :
  let codes := parseCodes (st_itemCodes st) in
  let pendingImages := List.filter is_pending (st_images st) in
  let unmatched := snd (matchImages codes pendingImages) in
  let message := unmatchedMessage unmatched in
  codes <> [] -> unmatched <> [] ->
  handleProcessImages st = Return [setError (Some message)] /\
  st_error (processImages st settled) = Some message /\
  st_images (processImages st settled) = st_images st /\
  st_isProcessing (processImages st settled) = st_isProcessing st /\
  (forall name, In name (firstn 3 (List.map originalName unmatched)) ->
                occursIn name message) /\
  ((length unmatched <= 3)%nat ->
   message = unmatchedHead
               ++ JS.join (JS.lit ", ") (List.map originalName unmatched)
               ++ unmatchedTail) /\
  ((3 < length unmatched)%nat ->
   message = unmatchedHead
               ++ JS.join (JS.lit ", ") (firstn 3 (List.map originalName unmatched))
               ++ (JS.lit " and " ++ JS.numberToString (N.of_nat (length unmatched - 3))
                     ++ JS.lit " more")
               ++ unmatchedTail).
Proof.
  intros codes pendingImages unmatched message Hc Hu.
  assert (Hp : pendingImages <> []).
  { intros E. apply Hu. unfold unmatched. rewrite E. apply matchImages_nil. }
  assert (E : handleProcessImages st = Return [setError (Some message)]).
  { unfold handleProcessImages. fold codes pendingImages.
    rewrite !length_eqb_0, length_ltb_0.
    rewrite (bool_decide_eq_false_2 _ Hp), (bool_decide_eq_false_2 _ Hc).
    fold unmatched. by rewrite (bool_decide_eq_false_2 _ Hu). }
  unfold processImages. rewrite E. simpl.
  repeat split.
  - intros name Hin. unfold message, unmatchedMessage.
    destruct (join_occurs (JS.lit ", ") _ _ Hin) as (a & b & Hj).
    rewrite Hj. exists (unmatchedHead ++ a). eexists.
    rewrite <- !app_assoc. reflexivity.
  - intros Hle. unfold message, unmatchedMessage.
    rewrite firstn_all2 by (by rewrite length_map).
    destruct (3 <? length unmatched)%nat eqn:E3; [apply Nat.ltb_lt in E3; lia|].
    reflexivity.
  - intros Hlt. unfold message, unmatchedMessage.
    apply Nat.ltb_lt in Hlt. by rewrite Hlt.
Qed.

Lemma C3_unmatched_items_witness :
  let st := Sample.state Sample.twoCodes Sample.twoImages in
  handleProcessImages st
    = Return [setError (Some (unmatchedMessage [Sample.image "2" "B_y.jpg" pending]))] /\
  st_images (processImages st []) = st_images st.
Proof.
  pose proof (C3_unmatched_items_fail_the_whole_run
                (Sample.state Sample.twoCodes Sample.twoImages) []) as H.
  cbv zeta in H. destruct H as (H1 & _ & H3 & _); [discriminate | discriminate |].
  split; [exact H1 | exact H3].
Defined.

(** * A processing run *)

Section Run.

Lemma runEffects_images es st :
  st_images (runEffects es st)
  = fold_left (fun imgs u => applyUpdate u imgs) (imagesUpdates es) (st_images st).
Proof.
  revert st. induction es as [|e es IH]; intros st; [reflexivity|].
  change (runEffects (e :: es) st) with (runEffects es (runEffect st e)).
  rewrite IH. by destruct e.
Qed.

Lemma imagesUpdates_app es1 es2 :
  imagesUpdates (es1 ++ es2) = imagesUpdates es1 ++ imagesUpdates es2.
Proof. apply omap_app. Qed.

Lemma launchAll_calls (m : gmap (list N) (list N)) pendingImages :
  (forall image, In image pendingImages ->
     exists v, m !! id image = Some v /\ JS.truthy v = true) ->
  launchAll m pendingImages = ([], List.map (callFor m) pendingImages).
Proof.
  unfold launchAll. induction pendingImages as [|x l IH]; intros H; [reflexivity|].
  destruct (H x (or_introl eq_refl)) as (v & Hv & Ht).
  assert (Hl := IH (fun image Hin => H image (or_intror Hin))).
  injection Hl as Hl1 Hl2. simpl. rewrite Hl1, Hl2.
  unfold launch. rewrite Hv, Ht. unfold callFor. rewrite Hv. reflexivity.
Qed.

(** Past the gates, every pending image has the trimmed value of a code
    of the list as its assignment. *)
Lemma matchImages_assigned codes pendingImages image :
  snd (matchImages codes pendingImages) = [] -> In image pendingImages ->
  exists code, In code codes /\
               fst (matchImages codes pendingImages) !! id image = Some (JS.trim code).
Proof.
  unfold matchImages, secondPass. intros Hun Hin.
  assert (Hfirst : In image (snd (firstPass codes pendingImages)) \/
                   exists code, In code codes /\
                     fst (firstPass codes pendingImages) !! id image = Some (JS.trim code)).
  { destruct (unmatchedBy codes image) eqn:Hm.
    - left. rewrite firstPass_unmatched. by apply filter_In.
    - right. destruct (firstPass_matched_present codes _ _ Hin Hm) as [v Hv].
      destruct (firstPass_values codes _ _ _ Hv) as (code & Hc & ->). eauto. }
  destruct ((0 <? length (snd (firstPass codes pendingImages)))%nat
            && (length codes =? 1)%nat) eqn:Hb.
  - apply andb_true_iff in Hb as [_ Hlen]. apply Nat.eqb_eq in Hlen.
    destruct codes as [|code [|? ?]]; try discriminate. simpl.
    exists code. split; [by left|].
    rewrite assignAll_lookup. destruct Hfirst as [Hi|(c & [<-|[]] & Hc)].
    + rewrite bool_decide_eq_true_2; [done|]. apply list_elem_of_In. by apply in_map.
    + rewrite Hc. by destruct (bool_decide _).
  - destruct Hfirst as [Hi|H]; [|exact H].
    rewrite Hun in Hi. destruct Hi.
Qed.

(** What reaching the [await] amounts to. *)
Lemma handleProcessImages_Await st effects calls :
  handleProcessImages st = Await effects calls ->
  let codes := parseCodes (st_itemCodes st) in
  let pendingImages := List.filter is_pending (st_images st) in
  pendingImages <> [] /\ codes <> [] /\
  snd (matchImages codes pendingImages) = [] /\
  effects = startEffects /\
  calls = List.map (callFor (fst (matchImages codes pendingImages))) pendingImages.
Proof.
  intros H codes pendingImages. unfold handleProcessImages in H.
  fold codes pendingImages in H.
  rewrite !length_eqb_0, length_ltb_0 in H.
  destruct (decide (pendingImages = [])) as [Ep|Hp];
    [by rewrite (bool_decide_eq_true_2 _ Ep) in H|].
  rewrite (bool_decide_eq_false_2 _ Hp) in H.
  destruct (decide (codes = [])) as [Ec|Hc];
    [by rewrite (bool_decide_eq_true_2 _ Ec) in H|].
  rewrite (bool_decide_eq_false_2 _ Hc) in H.
  destruct (decide (snd (matchImages codes pendingImages) = [])) as [Eu|Hu];
    [|by rewrite (bool_decide_eq_false_2 _ Hu) in H].
  rewrite (bool_decide_eq_true_2 _ Eu) in H. cbn [negb] in H.
  rewrite launchAll_calls in H.
  - injection H as <- <-. repeat split; try assumption.
  - intros image Hin.
    destruct (matchImages_assigned codes pendingImages image Eu Hin) as (code & Hcode & Hv).
    exists (JS.trim code). split; [exact Hv|].
    apply JSFacts.truthy_nonempty.
    pose proof (parseCodes_nonblank (st_itemCodes st)) as Hall.
    rewrite List.Forall_forall in Hall. by apply Hall.
Qed.

Lemma settleItem_id r img : id (settleItem r img) = id img.
Proof. by destruct r. Qed.

Lemma onSettled_images cr :
  imagesUpdates [onSettled cr]
  = [match snd cr with
     | Fulfilled name => MarkCompleted (call_id (fst cr)) (JS.trim name)
     | Rejected reason => MarkError (call_id (fst cr)) (rejectionMessage reason)
     end].
Proof. unfold onSettled. by destruct (snd cr). Qed.

Lemma applyUpdate_onSettled cr imgs :
  fold_left (fun imgs u => applyUpdate u imgs) (imagesUpdates [onSettled cr]) imgs
  = List.map (fun img => if same_id (id img) (call_id (fst cr))
                         then settleItem (snd cr) img else img) imgs.
Proof. rewrite onSettled_images. simpl. by destruct (snd cr). Qed.

(** Calls with distinct targets: each item is what its own call made of
    it, whatever the order in which the calls settled. *)
Lemma settled_images settled imgs :
  NoDup (List.map (fun cr => call_id (fst cr)) settled) ->
  fold_left (fun imgs u => applyUpdate u imgs)
            (imagesUpdates (List.map onSettled settled)) imgs
  = List.map (afterSettled settled) imgs.
Proof.
  revert imgs. induction settled as [|cr rest IH]; intros imgs Hnd.
  - simpl. symmetry. apply List.map_id.
  - simpl List.map in *. apply NoDup_cons in Hnd as [Hcr Hrest].
    change (onSettled cr :: List.map onSettled rest)
      with ([onSettled cr] ++ List.map onSettled rest).
    rewrite imagesUpdates_app, fold_left_app, applyUpdate_onSettled, (IH _ Hrest).
    rewrite List.map_map. apply map_ext. intros img.
    unfold afterSettled, settlementFor. simpl.
    destruct (same_id (id img) (call_id (fst cr))) eqn:E.
    + rewrite settleItem_id.
      destruct (List.find _ rest) as [cr'|] eqn:Hf; [|reflexivity].
      apply find_some in Hf as [Hin Eid]. elim Hcr.
      apply bool_decide_eq_true in E, Eid.
      apply list_elem_of_In, in_map_iff. exists cr'. split; [congruence | exact Hin].
    + reflexivity.
Qed.

Lemma lookup_map {A B} (f : A -> B) (l : list A) (k : nat) :
  List.map f l !! k = f <$> (l !! k).
Proof. revert k. induction l as [|x l IH]; intros [|k]; simpl; auto. Qed.

Lemma NoDup_map_In_inj {A B} (f : A -> B) (l : list A) (x y : A) :
  NoDup (List.map f l) -> In x l -> In y l -> f x = f y -> x = y.
Proof.
  induction l as [|z l IH]; simpl; [intros _ []|].
  intros Hnd Hx Hy E. apply NoDup_cons in Hnd as [Hz Hl].
  destruct Hx as [->|Hx], Hy as [->|Hy]; auto.
  - elim Hz. rewrite E. apply list_elem_of_In. by apply in_map.
  - elim Hz. rewrite <- E. apply list_elem_of_In. by apply in_map.
Qed.

Lemma callFor_ids m pendingImages :
  List.map call_id (List.map (callFor m) pendingImages) = List.map id pendingImages.
Proof. rewrite List.map_map. reflexivity. Qed.

(** The targets of the settled calls are the ids of the pending items. *)
Lemma settled_targets st effects calls (settled : list (RenameCall * Settlement)) :
  handleProcessImages st = Await effects calls ->
  Permutation (List.map fst settled) calls ->
  Permutation (List.map (fun cr => call_id (fst cr)) settled)
              (List.map id (List.filter is_pending (st_images st))).
Proof.
  intros H Hperm. apply handleProcessImages_Await in H as (_ & _ & _ & _ & ->).
  rewrite <- callFor_ids with (m := fst (matchImages (parseCodes (st_itemCodes st))
                                      (List.filter is_pending (st_images st)))).
  rewrite <- (List.map_map (@fst RenameCall Settlement) call_id).
  by apply Permutation_map.
Qed.

Lemma settled_targets_NoDup st effects calls
    (settled : list (RenameCall * Settlement)) :
  NoDup (List.map id (st_images st)) ->
  handleProcessImages st = Await effects calls ->
  Permutation (List.map fst settled) calls ->
  NoDup (List.map (fun cr => call_id (fst cr)) settled).
Proof.
  intros Hnd H Hperm.
  rewrite (settled_targets _ _ _ _ H Hperm). by apply NoDup_map_filter.
Qed.

Lemma prefix_targets_NoDup (done settled : list (RenameCall * Settlement)) :
  done `prefix_of` settled ->
  NoDup (List.map (fun cr => call_id (fst cr)) settled) ->
  NoDup (List.map (fun cr => call_id (fst cr)) done).
Proof.
  intros [rest ->]. rewrite List.map_app. intros H.
  by apply NoDup_app in H as [? _].
Qed.

(** The [setImages] updates among the first [n] updates of a run. *)
Lemma run_prefix_updates settled n :
  imagesUpdates (firstn n (startEffects ++ List.map onSettled settled
                             ++ [setIsProcessing false])) = []
  \/ exists done, done `prefix_of` settled /\
       imagesUpdates (firstn n (startEffects ++ List.map onSettled settled
                                  ++ [setIsProcessing false]))
       = MarkProcessing :: imagesUpdates (List.map onSettled done).
Proof.
  destruct n as [|[|[|m]]]; [by left | by left | by left | right].
  exists (firstn m settled). split.
  - exists (skipn m settled). symmetry. apply firstn_skipn.
  - change (firstn (S (S (S m))) (startEffects ++ ?r))
      with (setError None :: setIsProcessing true :: setImages MarkProcessing
              :: firstn m r).
    rewrite firstn_app, firstn_map.
    change (imagesUpdates (?a :: ?b :: setImages MarkProcessing :: ?r))
      with (MarkProcessing :: imagesUpdates r).
    rewrite imagesUpdates_app. f_equal.
    destruct (m - length (List.map onSettled settled))%nat as [|[|k]]; simpl;
      apply app_nil_r.
Qed.

Lemma markProcessing_images imgs :
  applyUpdate MarkProcessing imgs = List.map toProcessing imgs.
Proof. reflexivity. Qed.

(** The items after the first [n] updates of a run that reached the
    [await]: as before, or marked and then settled by the calls done. *)
Lemma run_prefix_images st effects calls settled n :
  handleProcessImages st = Await effects calls ->
  NoDup (List.map (fun cr => call_id (fst cr)) settled) ->
  st_images (stateAfter n st settled) = st_images st
  \/ exists done, done `prefix_of` settled /\
       st_images (stateAfter n st settled)
       = List.map (fun img => afterSettled done (toProcessing img)) (st_images st).
Proof.
  intros H Hnd. unfold stateAfter. rewrite H.
  apply handleProcessImages_Await in H as (_ & _ & _ & -> & _).
  unfold runUpdates. rewrite runEffects_images.
  destruct (run_prefix_updates settled n) as [->|(done & Hpre & ->)]; [by left|].
  right. exists done. split; [exact Hpre|]. cbn [fold_left].
  rewrite markProcessing_images, settled_images, List.map_map; [reflexivity|].
  by eapply prefix_targets_NoDup.
Qed.

Lemma run_final_images st effects calls settled :
  handleProcessImages st = Await effects calls ->
  NoDup (List.map (fun cr => call_id (fst cr)) settled) ->
  st_images (processImages st settled)
  = List.map (fun img => afterSettled settled (toProcessing img)) (st_images st).
Proof.
  intros H Hnd. unfold processImages. rewrite H.
  apply handleProcessImages_Await in H as (_ & _ & _ & -> & _).
  unfold runUpdates. rewrite runEffects_images, !imagesUpdates_app.
  change (imagesUpdates startEffects) with [MarkProcessing].
  change (imagesUpdates [setIsProcessing false]) with (@nil ImagesUpdate).
  rewrite app_nil_r. cbn [fold_left app].
  rewrite markProcessing_images, settled_images, List.map_map; done.
Qed.

Lemma handleProcessImages_Return st effects :
  handleProcessImages st = Return effects ->
  effects = [] \/ exists message, effects = [setError (Some message)].
Proof.
  unfold handleProcessImages.
  repeat match goal with |- context [if ?b then _ else _] => destruct b end;
    intros [= <-]; eauto.
Qed.

Lemma return_prefix_images st effects settled n :
  handleProcessImages st = Return effects ->
  st_images (stateAfter n st settled) = st_images st.
Proof.
  intros H. unfold stateAfter. rewrite H.
  apply handleProcessImages_Return in H as [->|[message ->]];
    destruct n as [|[|n]]; reflexivity.
Qed.

Lemma stateAfter_all st settled n :
  (length (runUpdates (handleProcessImages st) settled) <= n)%nat ->
  stateAfter n st settled = processImages st settled.
Proof. intros H. unfold stateAfter, processImages. by rewrite firstn_all2. Qed.

(** An item that is not pending is the target of no call of the run. *)
Lemma not_pending_not_targeted st effects calls
    (settled done : list (RenameCall * Settlement)) img :
  NoDup (List.map id (st_images st)) ->
  handleProcessImages st = Await effects calls ->
  Permutation (List.map fst settled) calls ->
  done `prefix_of` settled ->
  In img (st_images st) -> status img <> pending ->
  settlementFor done (id img) = None.
Proof.
  intros Hnd H Hperm [rest ->] Hin Hst.
  destruct (settlementFor done (id img)) as [cr|] eqn:Hf; [|reflexivity].
  apply find_some in Hf as [Hcr E]. apply bool_decide_eq_true in E.
  assert (Ht : In (id img) (List.map id (List.filter is_pending (st_images st)))).
  { eapply Permutation_in; [by eapply settled_targets|].
    rewrite E. apply (in_map (fun cr => call_id (fst cr))).
    apply in_app_iff. by left. }
  apply in_map_iff in Ht as (img' & Eid & Hp).
  apply filter_In in Hp as [Hin' Hp]. apply bool_decide_eq_true in Hp.
  assert (img' = img) by (by eapply (NoDup_map_In_inj id)).
  congruence.
Qed.

End Run.

(** C10: a run touches only the items that were pending when it started.
    With distinct ids, an item that was completed, in error or processing
    is, at its place in the collection, the very same record after every
    update of the run and at its end, whatever the calls returned and in
    whatever order. *)
Theorem C10_run_leaves_other_items_untouched
    (st : AppState) (settled : list (RenameCall * Settlement))
    (n k : nat) (img : ProcessedImage) :
  NoDup (List.map id (st_images st)) ->
  settles (handleProcessImages st) settled ->
  st_images st !! k = Some img -> status img <> pending ->
  st_images (stateAfter n st settled) !! k = Some img /\
  st_images (processImages st settled) !! k = Some img.
Proof.
  intros Hnd Hs Hk Hst.
  assert (Hin : In img (st_images st)).
  { apply list_elem_of_In. by eapply list_elem_of_lookup_2. }
  assert (Hany : forall m, st_images (stateAfter m st settled) !! k = Some img).
  { intros m. destruct (handleProcessImages st) as [effects|effects calls] eqn:H.
    - by rewrite (return_prefix_images _ _ _ _ H).
    - simpl in Hs.
      pose proof (settled_targets_NoDup _ _ _ _ Hnd H Hs) as Hnd'.
      destruct (run_prefix_images _ _ _ _ m H Hnd') as [->|(done & Hpre & ->)];
        [exact Hk|].
      rewrite lookup_map, Hk. simpl. f_equal.
      unfold toProcessing, is_pending. rewrite bool_decide_eq_false_2 by exact Hst.
      unfold afterSettled.
      by rewrite (not_pending_not_targeted _ _ _ _ _ _ Hnd H Hs Hpre Hin Hst). }
  split; [apply Hany|].
  rewrite <- (stateAfter_all st settled _ (Nat.le_refl _)). apply Hany.
Qed.

Lemma C10_run_leaves_other_items_witness :
  let st := Sample.state Sample.twoCodes Sample.mixedImages in
  st_images (stateAfter 4 st Sample.settledCalls) !! 0%nat = Some Sample.renamedImage /\
  st_images (processImages st Sample.settledCalls) !! 0%nat = Some Sample.renamedImage.
Proof.
  apply (C10_run_leaves_other_items_untouched
           (Sample.state Sample.twoCodes Sample.mixedImages) Sample.settledCalls
           4 0 Sample.renamedImage).
  - apply (bool_decide_unpack _). vm_compute. exact I.
  - apply perm_swap.
  - reflexivity.
  - discriminate.
Defined.

(** C5, as stated, fails: the fallback is decided by what the rejection is,
    not by whether it carries a message. A call rejected with an [Error]
    whose message is empty leaves its item in error with the empty string as
    [errorMessage], not with the generic message. *)
Lemma C5_empty_error_message_gets_no_fallback :
  let st := Sample.state (JS.lit "L41086600")
              [Sample.image "photo1.jpg-1700000000000-0.5" "photo1.jpg" pending] in
  let settled := [(Sample.photoCall, Rejected (ErrorInstance (JS.lit "")))] in
  handleProcessImages st = Await startEffects [Sample.photoCall] /\
  List.map (fun img => (status img, errorMessage img))
           (st_images (processImages st settled)) = [(error, Some [])] /\
  List.map errorMessage (st_images (processImages st settled))
    <> [Some unknownErrorMessage].
Proof. split; [reflexivity|]. split; [reflexivity | discriminate]. Qed.

(** C5 (amended): with distinct ids, a run that reaches the [await] launches
    one call per pending item, with the item's file and the trimmed code
    assigned to it, and each item ends as its own call settled: completed,
    named by the returned string trimmed, when the call is fulfilled; in
    error, with the message of the [Error] it was rejected with, whatever
    that message is, or with the generic message when it was rejected with
    anything that is not an [Error]. No other call has a say. *)
Theorem C5_each_item_ends_as_its_own_call_settled
    (st : AppState) (effects : list Effect) (calls : list RenameCall)
    (settled : list (RenameCall * Settlement)) :
  NoDup (List.map id (st_images st)) ->
  handleProcessImages st = Await effects calls ->
  Permutation (List.map fst settled) calls ->
  List.map call_id calls = List.map id (List.filter is_pending (st_images st)) /\
  NoDup (List.map call_id calls) /\
  forall (k : nat) (img : ProcessedImage),
    st_images st !! k = Some img -> status img = pending ->
    (exists c code,
        In c calls /\ call_id c = id img /\ call_file c = file img /\
        In code (parseCodes (st_itemCodes st)) /\ call_code c = JS.trim code) /\
    (exists c r, In (c, r) settled /\ call_id c = id img) /\
    (forall c r,
        In (c, r) settled -> call_id c = id img ->
        exists img',
          st_images (processImages st settled) !! k = Some img' /\
          id img' = id img /\ file img' = file img /\
          previewUrl img' = previewUrl img /\ originalName img' = originalName img /\
          match r with
          | Fulfilled name =>
              status img' = completed /\ newName img' = JS.trim name /\
              errorMessage img' = errorMessage img
          | Rejected (ErrorInstance message) =>
              status img' = error /\ errorMessage img' = Some message /\
              newName img' = newName img
          | Rejected OtherValue =>
              status img' = error /\ errorMessage img' = Some unknownErrorMessage /\
              newName img' = newName img
          end).
Proof.
  intros Hnd H Hperm.
  pose proof (settled_targets_NoDup _ _ _ _ Hnd H Hperm) as Hnd'.
  pose proof (settled_targets _ _ _ _ H Hperm) as Htargets.
  pose proof (run_final_images _ _ _ _ H Hnd') as Hfinal.
  destruct (handleProcessImages_Await _ _ _ H) as (_ & _ & Hun & _ & Hcalls).
  assert (Hids : List.map call_id calls
                 = List.map id (List.filter is_pending (st_images st))).
  { rewrite Hcalls. apply callFor_ids. }
  split; [exact Hids|]. split; [rewrite Hids; by apply NoDup_map_filter|].
  intros k img Hk Hst.
  assert (Hin : In img (List.filter is_pending (st_images st))).
  { apply filter_In. split; [|by apply bool_decide_eq_true].
    apply list_elem_of_In. by eapply list_elem_of_lookup_2. }
  split; [|split].
  - destruct (matchImages_assigned _ _ _ Hun Hin) as (code & Hcode & Hv).
    exists (callFor (fst (matchImages (parseCodes (st_itemCodes st))
                            (List.filter is_pending (st_images st)))) img), code.
    rewrite Hcalls. split; [by apply in_map|].
    unfold callFor. simpl. by rewrite Hv.
  - assert (Ht : In (id img) (List.map (fun cr => call_id (fst cr)) settled)).
    { eapply Permutation_in; [symmetry; exact Htargets | by apply in_map]. }
    apply in_map_iff in Ht as ([c r] & E & Hcr). eauto.
  - intros c r Hcr Eid.
    assert (Hfor : settlementFor settled (id img) = Some (c, r)).
    { destruct (settlementFor settled (id img)) as [cr'|] eqn:Hf.
      - apply find_some in Hf as [Hcr' E']. apply bool_decide_eq_true in E'.
        f_equal. eapply (NoDup_map_In_inj (fun cr => call_id (fst cr))); eauto.
        simpl. congruence.
      - pose proof (find_none _ _ Hf _ Hcr) as E'.
        apply bool_decide_eq_false in E'. by elim E'. }
    exists (settleItem r (with_status processing img)). split.
    + rewrite Hfinal, lookup_map, Hk. simpl. f_equal.
      unfold toProcessing, is_pending. rewrite bool_decide_eq_true_2 by exact Hst.
      unfold afterSettled. simpl. by rewrite Hfor.
    + by destruct r as [name|[message|]].
Qed.

Lemma C5_each_item_witness :
  let st := Sample.state Sample.twoCodes Sample.mixedImages in
  List.map status (st_images (processImages st Sample.settledCalls))
    = [completed; completed; error] /\
  List.map newName (st_images (processImages st Sample.settledCalls))
    = [JS.lit "A0_side.jpg"; JS.lit "A1_front.jpg"; JS.lit ""] /\
  List.map call_id [Sample.call "1" "A1_x.jpg" "A1"; Sample.call "2" "A2_y.jpg" "A2"]
    = List.map id (List.filter is_pending (st_images st)).
Proof.
  pose proof (C5_each_item_ends_as_its_own_call_settled
                (Sample.state Sample.twoCodes Sample.mixedImages) startEffects
                [Sample.call "1" "A1_x.jpg" "A1"; Sample.call "2" "A2_y.jpg" "A2"]
                Sample.settledCalls) as H.
  destruct H as (H & _).
  - apply (bool_decide_unpack _). vm_compute. exact I.
  - reflexivity.
  - apply perm_swap.
  - split; [reflexivity|]. split; [reflexivity | exact H].
Defined.

(** * The order of the updates of a run *)

Section Order.

Lemma firstn_S_snoc {A} (l : list A) (n : nat) :
  firstn (S n) l
  = firstn n l ++ match nth_error l n with Some e => [e] | None => [] end.
Proof.
  revert n. induction l as [|x l IH]; intros [|n]; try reflexivity.
  change (firstn (S (S n)) (x :: l)) with (x :: firstn (S n) l).
  rewrite IH. reflexivity.
Qed.

Lemma stateAfter_S n st settled :
  stateAfter (S n) st settled
  = match nth_error (runUpdates (handleProcessImages st) settled) n with
    | Some e => runEffect (stateAfter n st settled) e
    | None => stateAfter n st settled
    end.
Proof.
  unfold stateAfter. rewrite firstn_S_snoc, runEffects_app.
  by destruct (nth_error _ n).
Qed.

Lemma run_updates_from_3 settled m :
  imagesUpdates (firstn (S (S (S m))) (startEffects ++ List.map onSettled settled
                                         ++ [setIsProcessing false]))
  = MarkProcessing :: imagesUpdates (List.map onSettled (firstn m settled)).
Proof.
  change (firstn (S (S (S m))) (startEffects ++ ?r))
    with (setError None :: setIsProcessing true :: setImages MarkProcessing
            :: firstn m r).
  rewrite firstn_app, firstn_map.
  change (imagesUpdates (?a :: ?b :: setImages MarkProcessing :: ?r))
    with (MarkProcessing :: imagesUpdates r).
  rewrite imagesUpdates_app. f_equal.
  destruct (m - length (List.map onSettled settled))%nat as [|[|k]]; simpl;
    apply app_nil_r.
Qed.

Lemma toProcessing_not_pending img : status (toProcessing img) <> pending.
Proof.
  unfold toProcessing, is_pending.
  destruct (decide (status img = pending)) as [E|E].
  - by rewrite (bool_decide_eq_true_2 _ E).
  - by rewrite (bool_decide_eq_false_2 _ E).
Qed.

Lemma settled_keep_no_pending (done : list (RenameCall * Settlement)) imgs :
  Forall (fun img => status img <> pending) imgs ->
  Forall (fun img => status img <> pending)
         (fold_left (fun imgs u => applyUpdate u imgs)
                    (imagesUpdates (List.map onSettled done)) imgs).
Proof.
  revert imgs. induction done as [|cr rest IH]; intros imgs H; [exact H|].
  change (List.map onSettled (cr :: rest))
    with ([onSettled cr] ++ List.map onSettled rest).
  rewrite imagesUpdates_app, fold_left_app, applyUpdate_onSettled.
  apply IH. apply List.Forall_map. eapply List.Forall_impl; [|exact H].
  intros img Himg. simpl. destruct (same_id _ _); [|exact Himg].
  by destruct (snd cr).
Qed.

(** From the third update on, no item of the collection is pending. *)
Lemma no_pending_from_3 st effects calls settled n :
  handleProcessImages st = Await effects calls -> (3 <= n)%nat ->
  Forall (fun img => status img <> pending) (st_images (stateAfter n st settled)).
Proof.
  intros H Hn. unfold stateAfter. rewrite H.
  apply handleProcessImages_Await in H as (_ & _ & _ & -> & _).
  destruct n as [|[|[|m]]]; try lia.
  unfold runUpdates. rewrite runEffects_images, run_updates_from_3.
  cbn [fold_left]. apply settled_keep_no_pending.
  rewrite markProcessing_images. apply List.Forall_map, List.Forall_forall.
  intros img _. apply toProcessing_not_pending.
Qed.

End Order.

(** C6: in a run that reaches the [await], the first updates queued are the
    three of the handler itself, the third of which turns every pending item
    into a processing one; the updates of the settled calls come after it,
    and from then on no item is pending. So no update of the run takes an
    item from pending to completed or to error: an item that is pending
    before an update is pending or processing after it. *)
Theorem C6_items_pass_through_processing
    (st : AppState) (effects : list Effect) (calls : list RenameCall)
    (settled : list (RenameCall * Settlement)) :
  handleProcessImages st = Await effects calls ->
  runUpdates (handleProcessImages st) settled
    = [setError None; setIsProcessing true; setImages MarkProcessing]
        ++ List.map onSettled settled ++ [setIsProcessing false] /\
  (forall k img,
      st_images st !! k = Some img -> status img = pending ->
      st_images (stateAfter 3 st settled) !! k = Some (with_status processing img)) /\
  (forall n img,
      (3 <= n)%nat -> In img (st_images (stateAfter n st settled)) ->
      status img <> pending) /\
  (forall n k img img',
      st_images (stateAfter n st settled) !! k = Some img ->
      st_images (stateAfter (S n) st settled) !! k = Some img' ->
      status img = pending ->
      status img' = pending \/ status img' = processing).
Proof.
  intros H.
  destruct (handleProcessImages_Await _ _ _ H) as (_ & _ & _ & Heff & _).
  assert (Hupd : runUpdates (handleProcessImages st) settled
                 = startEffects ++ List.map onSettled settled ++ [setIsProcessing false]).
  { rewrite H, Heff. reflexivity. }
  split; [exact Hupd|]. split; [|split].
  - intros k img Hk Hst. unfold stateAfter. rewrite Hupd.
    change (firstn 3 (startEffects ++ ?r)) with startEffects.
    rewrite runEffects_images. simpl. rewrite lookup_map, Hk. simpl.
    unfold is_pending. by rewrite (bool_decide_eq_true_2 _ Hst).
  - intros n img Hn Hin.
    pose proof (no_pending_from_3 st effects calls settled n H Hn) as Hall.
    rewrite List.Forall_forall in Hall. by apply Hall.
  - intros n k img img' Hk Hk' Hst. rewrite stateAfter_S in Hk'.
    destruct (nth_error _ n) as [e|] eqn:He; [|left; congruence].
    destruct (le_lt_dec 3 n) as [Hn|Hn].
    + pose proof (no_pending_from_3 st effects calls settled n H Hn) as Hall.
      rewrite List.Forall_forall in Hall. elim (Hall img); [|exact Hst].
      apply list_elem_of_In. by eapply list_elem_of_lookup_2.
    + rewrite Hupd in He.
      destruct n as [|[|[|n]]]; try lia; injection He as <-; simpl in Hk'.
      * left. congruence.
      * left. congruence.
      * right. rewrite lookup_map, Hk in Hk'. simpl in Hk'. unfold is_pending in Hk'.
        rewrite (bool_decide_eq_true_2 _ Hst) in Hk'. by injection Hk' as <-.
Qed.

Lemma C6_items_pass_through_processing_witness :
  let st := Sample.state Sample.twoCodes Sample.mixedImages in
  List.map status (st_images (stateAfter 3 st Sample.settledCalls))
    = [completed; processing; processing] /\
  runUpdates (handleProcessImages st) Sample.settledCalls
    = [setError None; setIsProcessing true; setImages MarkProcessing]
        ++ List.map onSettled Sample.settledCalls ++ [setIsProcessing false].
Proof.
  destruct (C6_items_pass_through_processing
              (Sample.state Sample.twoCodes Sample.mixedImages) startEffects
              [Sample.call "1" "A1_x.jpg" "A1"; Sample.call "2" "A2_y.jpg" "A2"]
              Sample.settledCalls) as (H & _).
  - reflexivity.
  - split; [reflexivity | exact H].
Defined.

(** * The fields of an item, by status *)

Section Fields.

Lemma newImage_consistent s : itemConsistent (newImage s).
Proof. by split. Qed.

Lemma toProcessing_consistent img : itemConsistent img -> itemConsistent (toProcessing img).
Proof.
  unfold toProcessing, is_pending. intros H.
  destruct (decide (status img = pending)) as [E|E].
  - rewrite (bool_decide_eq_true_2 _ E). unfold itemConsistent in *.
    rewrite E in H. exact H.
  - by rewrite (bool_decide_eq_false_2 _ E).
Qed.

Lemma settleItem_consistent r img :
  itemConsistent img -> status img = pending ->
  itemConsistent (settleItem r (with_status processing img)).
Proof.
  unfold itemConsistent. intros H E. rewrite E in H. destruct H as [Hn He].
  destruct r as [name|reason]; simpl.
  - split; [exact He|]. split; [apply JSFacts.trim_cleanStart | apply JSFacts.trim_cleanEnd].
  - by split.
Qed.

Lemma afterSettled_id done img : id (afterSettled done img) = id img.
Proof.
  unfold afterSettled. destruct (settlementFor _ _); [apply settleItem_id | reflexivity].
Qed.

Lemma toProcessing_id img : id (toProcessing img) = id img.
Proof. unfold toProcessing. by destruct (is_pending img). Qed.

Lemma process_wellFormed st settled n :
  wellFormed st -> settles (handleProcessImages st) settled ->
  wellFormed (stateAfter n st settled).
Proof.
  intros [Hnd Hall] Hs.
  destruct (handleProcessImages st) as [effects|effects calls] eqn:H.
  - rewrite <- H in Hs. unfold wellFormed.
    by rewrite (return_prefix_images _ _ _ _ H).
  - simpl in Hs. pose proof (settled_targets_NoDup _ _ _ _ Hnd H Hs) as Hnd'.
    unfold wellFormed.
    destruct (run_prefix_images _ _ _ _ n H Hnd') as [->|(done & Hpre & ->)];
      [by split|].
    split.
    + rewrite List.map_map.
      erewrite map_ext; [exact Hnd|].
      intros img. simpl. by rewrite afterSettled_id, toProcessing_id.
    + apply List.Forall_map, List.Forall_forall. intros img Hin.
      rewrite List.Forall_forall in Hall. specialize (Hall img Hin).
      destruct (decide (status img = pending)) as [E|E].
      * unfold toProcessing, is_pending. rewrite (bool_decide_eq_true_2 _ E).
        unfold afterSettled. simpl.
        destruct (settlementFor done (id img)) as [cr|].
        -- by apply settleItem_consistent.
        -- unfold itemConsistent in *. rewrite E in Hall. exact Hall.
      * unfold afterSettled. rewrite toProcessing_id.
        rewrite (not_pending_not_targeted _ _ _ _ _ _ Hnd H Hs Hpre Hin E).
        by apply toProcessing_consistent.
Qed.

Lemma reachable_wellFormed st : Reachable st -> wellFormed st.
Proof.
  induction 1 as [|st files _ [Hnd Hall] _ Hfresh|st value _ IH _|st _ _ _
                 |st settled n _ IH _ Hs].
  - split; constructor.
  - split; [exact Hfresh|]. simpl. apply List.Forall_app. split; [exact Hall|].
    apply List.Forall_map, List.Forall_forall. intros s _. apply newImage_consistent.
  - exact IH.
  - split; constructor.
  - by apply process_wellFormed.
Qed.

End Fields.

Section Provenance.

Variable answers : Settlement -> Prop.







End Provenance.




(** * The scenarios of the specification, run on the model *)

(** One code, one generically named photo: the fallback assigns the code,
    and the fulfilled call completes the item under the returned name. *)
Example scenario_single_code :
  let st := Sample.state (JS.lit "L41086600") [Sample.image "1" "photo1.jpg" pending] in
  let c := Sample.call "1" "photo1.jpg" "L41086600" in
  handleProcessImages st = Await startEffects [c] /\
  List.map (fun img => (status img, newName img))
           (st_images (processImages st [(c, Fulfilled (JS.lit "L41086600_front.jpg"))]))
    = [(completed, JS.lit "L41086600_front.jpg")].
Proof. split; reflexivity. Qed.

(** Two codes, one file that starts with neither: the whole action fails
    and the message names the file. *)
Example scenario_unmatched :
  let st := Sample.state Sample.twoCodes Sample.twoImages in
  handleProcessImages st
    = Return [setError (Some (unmatchedHead ++ JS.lit "B_y.jpg" ++ unmatchedTail))] /\
  processImages st [] = runEffect st (setError (Some (unmatchedMessage
                                        [Sample.image "2" "B_y.jpg" pending]))).
Proof. split; reflexivity. Qed.

(** Four unmatched files: three names and the count of the rest. *)
Example scenario_unmatched_count :
  unmatchedMessage [Sample.image "1" "a.jpg" pending; Sample.image "2" "b.jpg" pending;
                    Sample.image "3" "c.jpg" pending; Sample.image "4" "d.jpg" pending]
  = unmatchedHead ++ JS.lit "a.jpg, b.jpg, c.jpg and 1 more" ++ unmatchedTail.
Proof. reflexivity. Qed.

(** Two matched items, one call fulfilled and one rejected: the first item
    is completed, the second is in error with the rejection's message, and
    the run ends with the processing flag down. *)
Example scenario_mixed_outcomes :
  let st := Sample.state Sample.twoCodes Sample.mixedImages in
  let final := processImages st Sample.settledCalls in
  List.map (fun img => (status img, newName img, errorMessage img)) (st_images final)
    = [(completed, JS.lit "A0_side.jpg", None);
       (completed, JS.lit "A1_front.jpg", None);
       (error, JS.lit "", Some (JS.lit "quota exceeded"))] /\
  st_isProcessing final = false /\ st_error final = None.
Proof. repeat split. Qed.

(** Windows line ends: the carriage return stays in the parsed line and is
    trimmed away where the code is used. *)
Example scenario_carriage_return :
  parseCodes (JS.lit "A1" ++ [13; 10] ++ JS.lit "A2") = [JS.lit "A1" ++ [13]; JS.lit "A2"] /\
  List.map JS.trim (parseCodes (JS.lit "A1" ++ [13; 10] ++ JS.lit "A2"))
    = [JS.lit "A1"; JS.lit "A2"].
Proof. split; reflexivity. Qed.

(** * Beyond the claims: the gates, seen from outside *)

Section GateDecision.

Lemma find_existsb {A} (f : A -> bool) (l : list A) :
  List.find f l = None <-> existsb f l = false.
Proof.
  induction l as [|x l IH]; simpl; [tauto|].
  destruct (f x); simpl; [split; discriminate | exact IH].
Qed.

Lemma unmatchedBy_startsWithNoCode codes image :
  Forall (fun code => code <> []) codes ->
  unmatchedBy codes image = startsWithNoCode codes image.
Proof.
  intros Hcodes. unfold unmatchedBy, startsWithNoCode.
  destruct (matchingCode codes image) as [code|] eqn:E.
  - assert (Ht : JS.truthy code = true).
    { apply JSFacts.truthy_nonempty. rewrite List.Forall_forall in Hcodes.
      apply Hcodes. by eapply matchingCode_In. }
    rewrite Ht. simpl. symmetry. apply negb_false_iff.
    destruct (existsb _ codes) eqn:Ex; [reflexivity|].
    apply find_existsb in Ex. unfold matchingCode in E. congruence.
  - apply find_existsb in E. by rewrite E.
Qed.

Lemma parseCodes_nonempty_strings raw : Forall (fun code => code <> []) (parseCodes raw).
Proof.
  eapply List.Forall_impl; [|apply parseCodes_nonblank].
  intros c Hc ->. by apply Hc.
Qed.

(** The unmatched set after both passes, without the map. *)
Lemma matchImages_unmatched codes pendingImages :
  Forall (fun code => code <> []) codes ->
  snd (matchImages codes pendingImages)
  = if (length codes =? 1)%nat then []
    else List.filter (startsWithNoCode codes) pendingImages.
Proof.
  intros Hcodes. unfold matchImages, secondPass.
  rewrite firstPass_unmatched.
  rewrite (filter_ext _ _ (fun image => unmatchedBy_startsWithNoCode codes image Hcodes)).
  destruct (length codes =? 1)%nat.
  - rewrite andb_true_r.
    destruct (List.filter _ pendingImages) eqn:E; simpl; [|reflexivity].
    rewrite firstPass_unmatched.
    by rewrite (filter_ext _ _ (fun image => unmatchedBy_startsWithNoCode codes image Hcodes)).
  - rewrite andb_false_r, firstPass_unmatched.
    by rewrite (filter_ext _ _ (fun image => unmatchedBy_startsWithNoCode codes image Hcodes)).
Qed.

Lemma startsWithNoCode_false codes image :
  startsWithNoCode codes image = false <->
  exists code, In code codes /\ JS.trim code `prefix_of` originalName image.
Proof.
  unfold startsWithNoCode. rewrite negb_false_iff, existsb_exists.
  split; intros (code & Hin & H); exists code; split; try exact Hin;
    by apply JSFacts.startsWith_prefix.
Qed.

(** Which of the four exits the handler takes. *)
Lemma handleProcessImages_exits st :
  let codes := parseCodes (st_itemCodes st) in
  let pendingImages := List.filter is_pending (st_images st) in
  let unmatched := snd (matchImages codes pendingImages) in
  (pendingImages = [] /\ handleProcessImages st = Return []) \/
  (pendingImages <> [] /\ codes = [] /\
   handleProcessImages st = Return [setError (Some noCodesMessage)]) \/
  (pendingImages <> [] /\ codes <> [] /\ unmatched <> [] /\
   handleProcessImages st = Return [setError (Some (unmatchedMessage unmatched))]) \/
  (pendingImages <> [] /\ codes <> [] /\ unmatched = [] /\
   exists effects calls, handleProcessImages st = Await effects calls).
Proof.
  intros codes pendingImages unmatched. unfold handleProcessImages.
  fold codes pendingImages. fold unmatched.
  rewrite !length_eqb_0, length_ltb_0.
  destruct (decide (pendingImages = [])) as [Ep|Hp].
  { left. by rewrite (bool_decide_eq_true_2 _ Ep). }
  rewrite (bool_decide_eq_false_2 _ Hp). right.
  destruct (decide (codes = [])) as [Ec|Hc].
  { left. by rewrite (bool_decide_eq_true_2 _ Ec). }
  rewrite (bool_decide_eq_false_2 _ Hc). right.
  destruct (decide (unmatched = [])) as [Eu|Hu].
  - right. rewrite (bool_decide_eq_true_2 _ Eu). cbn [negb]. eauto 10.
  - left. by rewrite (bool_decide_eq_false_2 _ Hu).
Qed.

End GateDecision.

(** X1: the handler starts a run exactly when something is pending, the
    code list is not empty, and either there is a single code or the name of
    every pending item starts with the trimmed value of some code. *)
Theorem X1_run_starts_exactly_when_gates_pass (st : AppState) :
  let codes := parseCodes (st_itemCodes st) in
  let pendingImages := List.filter is_pending (st_images st) in
  (exists effects calls, handleProcessImages st = Await effects calls) <->
  pendingImages <> [] /\ codes <> [] /\
  (length codes = 1%nat \/
   Forall (fun image => exists code, In code codes /\
                          JS.trim code `prefix_of` originalName image)
          pendingImages).
Proof.
  intros codes pendingImages.
  pose proof (matchImages_unmatched codes pendingImages
                (parseCodes_nonempty_strings _)) as Hun.
  assert (Hiff : snd (matchImages codes pendingImages) = [] <->
                 (length codes = 1%nat \/
                  Forall (fun image => exists code, In code codes /\
                            JS.trim code `prefix_of` originalName image)
                         pendingImages)).
  { rewrite Hun. destruct (length codes =? 1)%nat eqn:E.
    - apply Nat.eqb_eq in E. tauto.
    - apply Nat.eqb_neq in E. rewrite filter_nil_iff, List.Forall_forall.
      split.
      + intros H. right. intros image Hin. by apply startsWithNoCode_false, H.
      + intros [?|H]; [done|]. intros image Hin. by apply startsWithNoCode_false, H. }
  pose proof (handleProcessImages_exits st) as Hex. cbv zeta in Hex.
  fold codes pendingImages in Hex.
  destruct Hex as [[Ep E]|[(Hp & Ec & E)|[(Hp & Hc & Hu & E)|(Hp & Hc & Eu & E)]]].
  - rewrite E. split; [intros (? & ? & [=]) | by intros [? _]].
  - rewrite E. split; [intros (? & ? & [=]) | by intros (_ & ? & _)].
  - rewrite E. split; [intros (? & ? & [=])|]. intros (_ & _ & H).
    by apply Hiff in H.
  - split; [|intros _; exact E]. intros _. repeat split; try assumption.
    by apply Hiff.
Qed.

(** X2: with more than one code, the items reported as unmatched are the
    pending items, in the order of the collection, whose name starts with
    the trimmed value of no code; if there is any, the action only shows the
    message built from them. *)
Theorem X2_unmatched_report_lists_names_without_code (st : AppState) :
  let codes := parseCodes (st_itemCodes st) in
  let pendingImages := List.filter is_pending (st_images st) in
  let unmatched := List.filter (startsWithNoCode codes) pendingImages in
  (1 < length codes)%nat -> unmatched <> [] ->
  handleProcessImages st = Return [setError (Some (unmatchedMessage unmatched))].
Proof.
  intros codes pendingImages unmatched Hlen Hne.
  pose proof (matchImages_unmatched codes pendingImages
                (parseCodes_nonempty_strings _)) as Hun.
  assert (E1 : (length codes =? 1)%nat = false) by (apply Nat.eqb_neq; lia).
  rewrite E1 in Hun. fold unmatched in Hun.
  pose proof (handleProcessImages_exits st) as Hex. cbv zeta in Hex.
  fold codes pendingImages in Hex.
  destruct Hex as [[Ep E]|[(Hp & Ec & E)|[(Hp & Hc & Hu & E)|(Hp & Hc & Eu & E)]]].
  - elim Hne. unfold unmatched. by rewrite Ep.
  - rewrite Ec in Hlen. simpl in Hlen. lia.
  - by rewrite E, Hun.
  - rewrite Hun in Eu. contradiction.
Qed.

Lemma X2_unmatched_report_witness :
  handleProcessImages (Sample.state Sample.twoCodes Sample.twoImages)
  = Return [setError (Some (unmatchedMessage [Sample.image "2" "B_y.jpg" pending]))].
Proof.
  apply (X2_unmatched_report_lists_names_without_code
           (Sample.state Sample.twoCodes Sample.twoImages)).
  - vm_compute. lia.
  - discriminate.
Defined.

(** X3: the safeguard of lines 87-96 is never taken. A run that reaches the
    [await] has queued the three start updates and nothing else, and has
    launched one call per pending item, none of them with an empty code. *)
Theorem X3_safeguard_is_never_taken
    (st : AppState) (effects : list Effect) (calls : list RenameCall) :
  handleProcessImages st = Await effects calls ->
  effects = [setError None; setIsProcessing true; setImages MarkProcessing] /\
  length calls = pendingImagesCount st /\
  Forall (fun c => call_code c <> []) calls.
Proof.
  intros H.
  destruct (handleProcessImages_Await _ _ _ H) as (_ & _ & Hun & -> & ->).
  split; [reflexivity|]. split; [by rewrite length_map|].
  apply List.Forall_map, List.Forall_forall. intros image Hin.
  destruct (matchImages_assigned _ _ _ Hun Hin) as (code & Hcode & Hv).
  unfold callFor. simpl. rewrite Hv. simpl.
  pose proof (parseCodes_nonblank (st_itemCodes st)) as Hall.
  rewrite List.Forall_forall in Hall. by apply Hall.
Qed.

Lemma X3_safeguard_witness :
  length [Sample.photoCall] = pendingImagesCount
    (Sample.state (JS.lit "L41086600")
                  [Sample.image "photo1.jpg-1700000000000-0.5" "photo1.jpg" pending]) /\
  Forall (fun c => call_code c <> []) [Sample.photoCall].
Proof.
  apply (X3_safeguard_is_never_taken
           (Sample.state (JS.lit "L41086600")
              [Sample.image "photo1.jpg-1700000000000-0.5" "photo1.jpg" pending])
           startEffects [Sample.photoCall]).
  reflexivity.
Defined.

(** X4: the action returns without queuing anything exactly when no item
    is pending, that is, exactly when the Process button is not rendered. *)
Theorem X4_silent_return_iff_nothing_pending (st : AppState) :
  (handleProcessImages st = Return [] <-> pendingImagesCount st = 0%nat) /\
  (handleProcessImages st = Return [] <-> showsProcessButton st = false).
Proof.
  assert (H : handleProcessImages st = Return [] <-> pendingImagesCount st = 0%nat).
  { unfold pendingImagesCount.
    destruct (handleProcessImages_exits st)
      as [[Ep E]|[(Hp & Ec & E)|[(Hp & Hc & Hu & E)|(Hp & Hc & Eu & (? & ? & E))]]];
      rewrite E.
    - rewrite Ep. by split.
    - split; [intros [=]|]. intros H0. by apply length_zero_iff_nil in H0.
    - split; [intros [=]|]. intros H0. by apply length_zero_iff_nil in H0.
    - split; [intros [=]|]. intros H0. by apply length_zero_iff_nil in H0. }
  split; [exact H|]. rewrite H. unfold showsProcessButton.
  destruct (pendingImagesCount st); simpl; split; try reflexivity; discriminate.
Qed.

(** * Beyond the claims: which code a call carries *)

Section CallCodes.

(** Past the gates, with distinct ids, the entry of an image is the trimmed
    code its own scan found, or the single code when the scan found none. *)
Lemma matchImages_lookup codes pendingImages image :
  Forall (fun code => code <> []) codes ->
  NoDup (List.map id pendingImages) ->
  snd (matchImages codes pendingImages) = [] -> In image pendingImages ->
  match matchingCode codes image with
  | Some code => fst (matchImages codes pendingImages) !! id image = Some (JS.trim code)
  | None => exists single, codes = [single] /\
              fst (matchImages codes pendingImages) !! id image = Some (JS.trim single)
  end.
Proof.
  intros Hcodes Hnd Hun Hin.
  pose proof (firstPass_lookup codes pendingImages image Hnd Hin) as Hlk.
  pose proof (firstPass_unmatched codes pendingImages) as Hfu.
  unfold matchImages, secondPass in *.
  destruct ((0 <? length (snd (firstPass codes pendingImages)))%nat
            && (length codes =? 1)%nat) eqn:Hb.
  - apply andb_true_iff in Hb as [_ Hlen]. apply Nat.eqb_eq in Hlen.
    destruct codes as [|single [|? ?]]; try discriminate. cbn [fst hd].
    rewrite assignAll_lookup.
    destruct (matchingCode [single] image) as [code|] eqn:E.
    + pose proof (matchingCode_In _ _ _ E) as [<-|[]].
      destruct (bool_decide _); [reflexivity|].
      rewrite Hlk. rewrite List.Forall_forall in Hcodes.
      assert (Ht : JS.truthy single = true).
      { apply JSFacts.truthy_nonempty, Hcodes. by left. }
      by rewrite Ht.
    + exists single. split; [reflexivity|].
      rewrite bool_decide_eq_true_2; [reflexivity|].
      apply list_elem_of_In, in_map. rewrite Hfu. apply filter_In.
      split; [exact Hin|]. unfold unmatchedBy. by rewrite E.
  - assert (Hm : unmatchedBy codes image = false).
    { destruct (unmatchedBy codes image) eqn:Hm; [|reflexivity].
      assert (Hi : In image (snd (firstPass codes pendingImages))).
      { rewrite Hfu. by apply filter_In. }
      rewrite Hun in Hi. destruct Hi. }
    unfold unmatchedBy in Hm.
    destruct (matchingCode codes image) as [code|]; [|discriminate].
    apply negb_false_iff in Hm. by rewrite Hlk, Hm.
Qed.

Lemma find_app_hit {A} (f : A -> bool) (l1 r : list A) (c : A) :
  f c = true ->
  exists x before after,
    List.find f (l1 ++ c :: r) = Some x /\ l1 ++ [c] = before ++ x :: after.
Proof.
  intros Hc. induction l1 as [|y l1 (x & b & a & Hf & E)]; simpl.
  - rewrite Hc. by exists c, [], [].
  - destruct (f y) eqn:Ey.
    + by exists y, [], (l1 ++ [c]).
    + exists x, (y :: b), a. split; [exact Hf|]. simpl. by rewrite E.
Qed.

End CallCodes.

(** X5: with distinct ids, the call launched for a pending item carries the
    item's id and file, and as its code the trimmed value of the first code
    whose trimmed value is a prefix of the item's name; when no code is such
    a prefix the list has a single code, and the call carries it, trimmed. *)
Theorem X5_call_carries_the_code_of_its_item
    (st : AppState) (effects : list Effect) (calls : list RenameCall)
    (image : ProcessedImage) :
  NoDup (List.map id (st_images st)) ->
  handleProcessImages st = Await effects calls ->
  In image (st_images st) -> status image = pending ->
  let codes := parseCodes (st_itemCodes st) in
  exists c,
    In c calls /\ call_id c = id image /\ call_file c = file image /\
    ((exists code, firstPrefixCode codes (originalName image) code /\
                   call_code c = JS.trim code)
     \/ (noPrefixCode codes (originalName image) /\
         exists single, codes = [single] /\ call_code c = JS.trim single)).
Proof.
  intros Hnd H Hin Hst codes.
  destruct (handleProcessImages_Await _ _ _ H) as (_ & _ & Hun & _ & ->).
  fold codes in Hun |- *.
  assert (Hp : In image (List.filter is_pending (st_images st))).
  { apply filter_In. split; [exact Hin | by apply bool_decide_eq_true]. }
  exists (callFor (fst (matchImages codes (List.filter is_pending (st_images st)))) image).
  split; [by apply in_map|]. split; [reflexivity|]. split; [reflexivity|].
  pose proof (matchImages_lookup codes _ image (parseCodes_nonempty_strings _)
                (NoDup_map_filter id is_pending _ Hnd) Hun Hp) as Hlk.
  unfold callFor. simpl.
  destruct (matchingCode codes image) as [code|] eqn:E.
  - left. exists code. split; [by apply matchingCode_Some|]. by rewrite Hlk.
  - right. split; [by apply matchingCode_None|].
    destruct Hlk as (single & Hs & Hlk). exists single. split; [exact Hs|].
    by rewrite Hlk.
Qed.

Lemma X5_call_carries_the_code_witness :
  exists c,
    In c [Sample.call "1" "A1_x.jpg" "A1"; Sample.call "2" "A2_y.jpg" "A2"] /\
    call_id c = JS.lit "2" /\ call_file c = file (Sample.image "2" "A2_y.jpg" pending) /\
    ((exists code, firstPrefixCode (parseCodes Sample.twoCodes) (JS.lit "A2_y.jpg") code /\
                   call_code c = JS.trim code)
     \/ (noPrefixCode (parseCodes Sample.twoCodes) (JS.lit "A2_y.jpg") /\
         exists single, parseCodes Sample.twoCodes = [single] /\
                        call_code c = JS.trim single)).
Proof.
  apply (X5_call_carries_the_code_of_its_item
           (Sample.state Sample.twoCodes Sample.mixedImages) startEffects
           [Sample.call "1" "A1_x.jpg" "A1"; Sample.call "2" "A2_y.jpg" "A2"]
           (Sample.image "2" "A2_y.jpg" pending)).
  - apply (bool_decide_unpack _). vm_compute. exact I.
  - reflexivity.
  - right. right. left. reflexivity.
  - reflexivity.
Defined.

(** X6: the first match wins, not the longest. When the trimmed value of a
    code extends the trimmed value of a code that comes earlier in the list,
    a name that starts with the later code is given the earlier one, or a
    code before it. *)
Theorem X6_earlier_code_shadows_its_extensions
    (l1 l2 l3 : list (list N)) (c1 c2 : list N) (image : ProcessedImage) :
  JS.trim c1 `prefix_of` JS.trim c2 ->
  JS.trim c2 `prefix_of` originalName image ->
  exists code before after,
    matchingCode (l1 ++ c1 :: l2 ++ c2 :: l3) image = Some code /\
    l1 ++ [c1] = before ++ code :: after.
Proof.
  intros H12 H2. unfold matchingCode. apply find_app_hit.
  apply JSFacts.startsWith_prefix. by etrans.
Qed.

Lemma X6_earlier_code_shadows_witness :
  exists code before after,
    matchingCode ([] ++ JS.lit "A1" :: [] ++ JS.lit "A10" :: [])
                 (Sample.image "1" "A10_x.jpg" pending) = Some code /\
    [] ++ [JS.lit "A1"] = before ++ code :: after.
Proof.
  apply (X6_earlier_code_shadows_its_extensions
           [] [] [] (JS.lit "A1") (JS.lit "A10") (Sample.image "1" "A10_x.jpg" pending)).
  - exists (JS.lit "0"). reflexivity.
  - exists (JS.lit "_x.jpg"). reflexivity.
Defined.

(** X7: parsing goes line by line. The codes of a text made of two parts
    joined by a line feed are the codes of the first part followed by the
    codes of the second, so a blank part (an empty line, a trailing line
    feed) adds no code. *)
Theorem X7_parseCodes_is_linewise (a b : list N) :
  parseCodes (a ++ JS.LF :: b) = parseCodes a ++ parseCodes b /\
  (Forall (fun c => JS.isWhiteSpace c = true) b ->
   parseCodes (a ++ JS.LF :: b) = parseCodes a) /\
  (Forall (fun c => JS.isWhiteSpace c = true) a ->
   parseCodes (a ++ JS.LF :: b) = parseCodes b).
Proof.
  assert (E : parseCodes (a ++ JS.LF :: b) = parseCodes a ++ parseCodes b).
  { unfold parseCodes. by rewrite split_app, List.filter_app. }
  split; [exact E|]. split; intros H; rewrite E, (parseCodes_blank _ H).
  - apply app_nil_r.
  - reflexivity.
Qed.

(** * Beyond the claims: the course of a run *)

Section Course.

Lemma onSettled_keeps_flags (done : list (RenameCall * Settlement)) st :
  st_isProcessing (runEffects (List.map onSettled done) st) = st_isProcessing st /\
  st_error (runEffects (List.map onSettled done) st) = st_error st /\
  st_itemCodes (runEffects (List.map onSettled done) st) = st_itemCodes st.
Proof.
  revert st. induction done as [|cr rest IH]; intros st; [by repeat split|].
  change (runEffects (List.map onSettled (cr :: rest)) st)
    with (runEffects (List.map onSettled rest) (runEffect st (onSettled cr))).
  destruct (IH (runEffect st (onSettled cr))) as (-> & -> & ->).
  unfold onSettled. by destruct (snd cr).
Qed.

(** The first [3 + m] updates of a run: the start updates and the first
    [m] settled calls. *)
Lemma run_prefix_settled (settled : list (RenameCall * Settlement)) m :
  (m <= length settled)%nat ->
  firstn (3 + m) (startEffects ++ List.map onSettled settled ++ [setIsProcessing false])
  = startEffects ++ List.map onSettled (firstn m settled).
Proof.
  intros Hm.
  change (firstn (3 + m) (startEffects ++ ?r)) with (startEffects ++ firstn m r).
  rewrite firstn_app, firstn_map, length_map.
  replace (m - length settled)%nat with 0%nat by lia.
  simpl. by rewrite app_nil_r.
Qed.

Lemma run_updates_length (settled : list (RenameCall * Settlement)) :
  length (startEffects ++ List.map onSettled settled ++ [setIsProcessing false])
  = (4 + length settled)%nat.
Proof. rewrite !length_app, length_map. simpl. lia. Qed.

(** The three fields a run does not keep in the items, update by update. *)
Lemma run_flags st effects calls settled n :
  handleProcessImages st = Await effects calls ->
  st_isProcessing (stateAfter n st settled)
  = (if (n <? 2)%nat then st_isProcessing st else (n <=? 3 + length settled)%nat) /\
  st_error (stateAfter n st settled) = (if (n =? 0)%nat then st_error st else None) /\
  st_itemCodes (stateAfter n st settled) = st_itemCodes st.
Proof.
  intros H. unfold stateAfter. rewrite H.
  apply handleProcessImages_Await in H as (_ & _ & _ & -> & _).
  unfold runUpdates.
  destruct n as [|[|[|m]]]; [by repeat split | by repeat split | by repeat split |].
  destruct (le_lt_dec m (length settled)) as [Hm|Hm].
  - change (S (S (S m))) with (3 + m)%nat.
    rewrite (run_prefix_settled _ _ Hm), runEffects_app.
    destruct (onSettled_keeps_flags (firstn m settled) (runEffects startEffects st))
      as (-> & -> & ->).
    simpl. repeat split. symmetry. apply Nat.leb_le. lia.
  - rewrite firstn_all2 by (rewrite run_updates_length; lia).
    rewrite !runEffects_app.
    destruct (onSettled_keeps_flags settled (runEffects startEffects st))
      as (_ & He & Hc).
    set (s := runEffects (List.map onSettled settled) (runEffects startEffects st)) in *.
    change (runEffects [setIsProcessing false] s)
      with (runEffect s (setIsProcessing false)).
    cbn [runEffect st_isProcessing st_error st_itemCodes Nat.ltb Nat.leb Nat.eqb].
    rewrite He, Hc. repeat split. symmetry. apply Nat.leb_gt. lia.
Qed.

Lemma upload_settleItem r img : upload (settleItem r img) = upload img.
Proof. by destruct r. Qed.

Lemma upload_toProcessing img : upload (toProcessing img) = upload img.
Proof. unfold toProcessing. by destruct (is_pending img). Qed.

Lemma settled_keep_uploads (done : list (RenameCall * Settlement)) imgs :
  List.map upload (fold_left (fun imgs u => applyUpdate u imgs)
                             (imagesUpdates (List.map onSettled done)) imgs)
  = List.map upload imgs.
Proof.
  revert imgs. induction done as [|cr rest IH]; intros imgs; [reflexivity|].
  change (List.map onSettled (cr :: rest))
    with ([onSettled cr] ++ List.map onSettled rest).
  rewrite imagesUpdates_app, fold_left_app, applyUpdate_onSettled, IH, List.map_map.
  apply map_ext. intros img. destruct (same_id _ _); [apply upload_settleItem | reflexivity].
Qed.

(** The items after [n] updates of a run, exactly. *)
Lemma run_images_exact st effects calls settled n :
  handleProcessImages st = Await effects calls ->
  NoDup (List.map (fun cr => call_id (fst cr)) settled) ->
  st_images (stateAfter n st settled)
  = if (n <? 3)%nat then st_images st
    else List.map (fun img => afterSettled (firstn (n - 3) settled) (toProcessing img))
                  (st_images st).
Proof.
  intros H Hnd. unfold stateAfter. rewrite H.
  apply handleProcessImages_Await in H as (_ & _ & _ & -> & _).
  unfold runUpdates. rewrite runEffects_images.
  destruct n as [|[|[|m]]]; try reflexivity.
  rewrite run_updates_from_3. cbn [fold_left Nat.ltb Nat.leb].
  rewrite markProcessing_images, settled_images, List.map_map.
  - replace (S (S (S m)) - 3)%nat with m by lia. reflexivity.
  - apply (prefix_targets_NoDup _ settled); [|exact Hnd].
    exists (skipn m settled). symmetry. apply firstn_skipn.
Qed.

Lemma firstn_le_prefix {A} (l : list A) (a b : nat) :
  (a <= b)%nat -> firstn a l `prefix_of` firstn b l.
Proof.
  intros Hab. exists (skipn a (firstn b l)).
  rewrite <- (firstn_skipn a (firstn b l)) at 1.
  by rewrite firstn_firstn, Nat.min_l.
Qed.

Lemma firstn_prefix_of {A} (l : list A) (a : nat) : firstn a l `prefix_of` l.
Proof. exists (skipn a l). symmetry. apply firstn_skipn. Qed.

Lemma find_app_Some {A} (f : A -> bool) (l1 l2 : list A) (x : A) :
  List.find f l1 = Some x -> List.find f (l1 ++ l2) = Some x.
Proof.
  induction l1 as [|y l1 IH]; simpl; [discriminate|].
  destruct (f y); [done | exact IH].
Qed.

Lemma handle_nothing_pending st :
  Forall (fun img => status img <> pending) (st_images st) ->
  handleProcessImages st = Return [].
Proof.
  intros H. rewrite List.Forall_forall in H. apply no_pending_filter in H.
  unfold handleProcessImages. by rewrite H.
Qed.

(** A pending item is the target of one of the calls that settled. *)
Lemma pending_targeted st effects calls (settled : list (RenameCall * Settlement)) img :
  handleProcessImages st = Await effects calls ->
  Permutation (List.map fst settled) calls ->
  In img (st_images st) -> status img = pending ->
  exists cr, settlementFor settled (id img) = Some cr.
Proof.
  intros H Hperm Hin Hst.
  assert (Ht : In (id img) (List.map (fun cr => call_id (fst cr)) settled)).
  { eapply Permutation_in; [symmetry; by eapply settled_targets|].
    apply in_map, filter_In. split; [exact Hin | by apply bool_decide_eq_true]. }
  apply in_map_iff in Ht as (cr & E & Hcr).
  destruct (settlementFor settled (id img)) as [cr'|] eqn:Hf; [eauto|].
  pose proof (find_none _ _ Hf _ Hcr) as E'. apply bool_decide_eq_false in E'.
  by elim E'.
Qed.

Lemma settleItem_terminal r img : is_terminal (settleItem r img) = true.
Proof. by destruct r. Qed.

Lemma return_prefix_flag st effects settled n :
  handleProcessImages st = Return effects ->
  st_isProcessing (stateAfter n st settled) = st_isProcessing st.
Proof.
  intros H. unfold stateAfter. rewrite H.
  apply handleProcessImages_Return in H as [->|[message ->]];
    destruct n as [|[|n]]; reflexivity.
Qed.

Lemma run_keeps_uploads st settled n :
  List.map upload (st_images (stateAfter n st settled)) = List.map upload (st_images st).
Proof.
  destruct (handleProcessImages st) as [effects|effects calls] eqn:H.
  - by rewrite (return_prefix_images _ _ _ _ H).
  - unfold stateAfter. rewrite H.
    apply handleProcessImages_Await in H as (_ & _ & _ & -> & _).
    unfold runUpdates. rewrite runEffects_images.
    destruct (run_prefix_updates settled n) as [->|(done & _ & ->)]; [reflexivity|].
    cbn [fold_left]. rewrite settled_keep_uploads, markProcessing_images, List.map_map.
    apply map_ext, upload_toProcessing.
Qed.

(** With distinct targets, a settled call is the one found for its id. *)
Lemma settlementFor_In (settled : list (RenameCall * Settlement)) cr :
  NoDup (List.map (fun cr => call_id (fst cr)) settled) -> In cr settled ->
  settlementFor settled (call_id (fst cr)) = Some cr.
Proof.
  intros Hnd Hin.
  destruct (settlementFor settled (call_id (fst cr))) as [cr'|] eqn:Hf.
  - apply find_some in Hf as [Hin' E]. apply bool_decide_eq_true in E.
    f_equal. by eapply (NoDup_map_In_inj (fun cr => call_id (fst cr))).
  - pose proof (find_none _ _ Hf _ Hin) as E. apply bool_decide_eq_false in E.
    by elim E.
Qed.

(** A settled call is the call launched for one of the pending items. *)
Lemma settled_call_image st effects calls (settled : list (RenameCall * Settlement)) cr :
  handleProcessImages st = Await effects calls ->
  Permutation (List.map fst settled) calls -> In cr settled ->
  exists image, In image (st_images st) /\ status image = pending /\
                call_id (fst cr) = id image /\ call_file (fst cr) = file image.
Proof.
  intros H Hperm Hin.
  destruct (handleProcessImages_Await _ _ _ H) as (_ & _ & _ & _ & Hcalls).
  assert (Hc : In (fst cr) calls).
  { eapply Permutation_in; [exact Hperm | by apply in_map]. }
  rewrite Hcalls in Hc. apply in_map_iff in Hc as (image & E & Hp).
  apply filter_In in Hp as [Hi Hp]. apply bool_decide_eq_true in Hp.
  exists image. rewrite <- E. by repeat split.
Qed.

End Course.

(** X8: a run that reaches the [await] clears the error with its first
    update, raises the processing flag with its second, keeps it up while
    the calls settle, and lowers it with its last update, after every call
    has settled; the code text is never touched. *)
Theorem X8_processing_flag_spans_the_run
    (st : AppState) (effects : list Effect) (calls : list RenameCall)
    (settled : list (RenameCall * Settlement)) (n : nat) :
  handleProcessImages st = Await effects calls ->
  st_isProcessing (stateAfter n st settled)
  = (if (n <? 2)%nat then st_isProcessing st else (n <=? 3 + length settled)%nat) /\
  st_error (stateAfter n st settled) = (if (n =? 0)%nat then st_error st else None) /\
  st_itemCodes (stateAfter n st settled) = st_itemCodes st /\
  st_isProcessing (processImages st settled) = false /\
  st_error (processImages st settled) = None.
Proof.
  intros H. destruct (run_flags st effects calls settled n H) as (H1 & H2 & H3).
  split; [exact H1|]. split; [exact H2|]. split; [exact H3|].
  assert (Hlen : length (runUpdates (handleProcessImages st) settled)
                 = (4 + length settled)%nat).
  { rewrite H. destruct (handleProcessImages_Await _ _ _ H) as (_ & _ & _ & -> & _).
    apply run_updates_length. }
  rewrite <- (stateAfter_all st settled (4 + length settled)) by lia.
  destruct (run_flags st effects calls settled (4 + length settled) H) as (F1 & F2 & _).
  rewrite F1, F2. split; [|reflexivity].
  replace (4 + length settled <? 2)%nat with false by (symmetry; apply Nat.ltb_ge; lia).
  apply Nat.leb_gt. lia.
Qed.

Lemma X8_processing_flag_witness :
  let st := Sample.state Sample.twoCodes Sample.mixedImages in
  List.map (fun n => st_isProcessing (stateAfter n st Sample.settledCalls))
           [0; 1; 2; 3; 4; 5; 6]%nat
    = [false; false; true; true; true; true; false] /\
  st_isProcessing (stateAfter 4 st Sample.settledCalls)
    = (if (4 <? 2)%nat then st_isProcessing st
       else (4 <=? 3 + length Sample.settledCalls)%nat).
Proof.
  split; [reflexivity|].
  apply (X8_processing_flag_spans_the_run
           (Sample.state Sample.twoCodes Sample.mixedImages) startEffects
           [Sample.call "1" "A1_x.jpg" "A1"; Sample.call "2" "A2_y.jpg" "A2"]
           Sample.settledCalls 4).
  reflexivity.
Defined.

(** X9: no update of the action adds, removes or reorders items, or changes
    the id, file, preview URL or original name of an item: after any number
    of updates the collection shows the same uploads in the same order,
    whatever the ids and whatever the calls returned. *)
Theorem X9_run_keeps_the_uploads
    (st : AppState) (settled : list (RenameCall * Settlement)) (n : nat) :
  List.map upload (st_images (stateAfter n st settled)) = List.map upload (st_images st) /\
  List.map upload (st_images (processImages st settled)) = List.map upload (st_images st).
Proof.
  split; [apply run_keeps_uploads|].
  rewrite <- (stateAfter_all st settled _ (Nat.le_refl _)). apply run_keeps_uploads.
Qed.

(** X10: with distinct ids, a result is final. Once an item is completed or
    in error, at any point of a run or before it, every later update of the
    run leaves it the same record at the same place. *)
Theorem X10_terminal_items_are_never_changed
    (st : AppState) (settled : list (RenameCall * Settlement))
    (n m k : nat) (img : ProcessedImage) :
  NoDup (List.map id (st_images st)) ->
  settles (handleProcessImages st) settled ->
  (n <= m)%nat ->
  st_images (stateAfter n st settled) !! k = Some img ->
  status img = completed \/ status img = error ->
  st_images (stateAfter m st settled) !! k = Some img.
Proof.
  intros Hnd Hs Hnm Hk Hterm.
  destruct (handleProcessImages st) as [effects|effects calls] eqn:H.
  { rewrite (return_prefix_images _ _ _ _ H) in Hk.
    by rewrite (return_prefix_images _ _ _ _ H). }
  simpl in Hs. pose proof (settled_targets_NoDup _ _ _ _ Hnd H Hs) as Hnd'.
  rewrite (run_images_exact _ _ _ _ _ H Hnd') in Hk.
  rewrite (run_images_exact _ _ _ _ _ H Hnd').
  assert (Hfixed : forall img0 a,
            st_images st !! k = Some img0 -> status img0 <> pending ->
            afterSettled (firstn a settled) (toProcessing img0) = img0).
  { intros img0 a Hk0 Hst0.
    assert (Hin : In img0 (st_images st)).
    { apply list_elem_of_In. by eapply list_elem_of_lookup_2. }
    unfold toProcessing, is_pending. rewrite (bool_decide_eq_false_2 _ Hst0).
    unfold afterSettled.
    by rewrite (not_pending_not_targeted _ _ _ _ _ _ Hnd H Hs
                  (firstn_prefix_of settled a) Hin Hst0). }
  destruct (n <? 3)%nat eqn:En.
  - assert (Hst0 : status img <> pending) by (destruct Hterm; congruence).
    destruct (m <? 3)%nat; [exact Hk|].
    rewrite lookup_map, Hk. simpl. f_equal. by apply Hfixed.
  - apply Nat.ltb_ge in En.
    assert (Em : (m <? 3)%nat = false) by (apply Nat.ltb_ge; lia).
    rewrite Em. rewrite lookup_map in Hk |- *.
    destruct (st_images st !! k) as [img0|] eqn:Hk0; [|discriminate].
    simpl in Hk |- *. injection Hk as Hk. f_equal.
    destruct (decide (status img0 = pending)) as [Hp|Hp];
      [|rewrite Hfixed in Hk |- * by done; exact Hk].
    unfold afterSettled in Hk |- *.
    destruct (settlementFor (firstn (n - 3) settled) (id (toProcessing img0)))
      as [cr|] eqn:Hf.
    + destruct (firstn_le_prefix settled (n - 3) (m - 3)) as [rest ->]; [lia|].
      unfold settlementFor in Hf |- *. by rewrite (find_app_Some _ _ _ _ Hf).
    + subst img. unfold toProcessing, is_pending in Hterm.
      rewrite (bool_decide_eq_true_2 _ Hp) in Hterm. simpl in Hterm.
      destruct Hterm; discriminate.
Qed.

Lemma X10_terminal_items_witness :
  let st := Sample.state Sample.twoCodes Sample.mixedImages in
  st_images (stateAfter 4 st Sample.settledCalls) !! 2%nat
    = st_images (stateAfter 6 st Sample.settledCalls) !! 2%nat /\
  st_images (stateAfter 6 st Sample.settledCalls) !! 2%nat
    = Some (with_errorMessage (JS.lit "quota exceeded")
              (with_status error (Sample.image "2" "A2_y.jpg" pending))).
Proof.
  split; [reflexivity|].
  apply (X10_terminal_items_are_never_changed
           (Sample.state Sample.twoCodes Sample.mixedImages) Sample.settledCalls 4 6 2).
  - apply (bool_decide_unpack _). vm_compute. exact I.
  - apply perm_swap.
  - lia.
  - reflexivity.
  - right. reflexivity.
Defined.

(** X11: once a run has marked its items, invoking the action again does
    nothing: from the third update of a run on, and after the run, the
    handler finds nothing pending and returns without queuing anything.
    In particular an item in error is not retried. *)
Theorem X11_second_invocation_does_nothing
    (st : AppState) (effects : list Effect) (calls : list RenameCall)
    (settled : list (RenameCall * Settlement)) (n : nat) :
  handleProcessImages st = Await effects calls ->
  (3 <= n)%nat ->
  handleProcessImages (stateAfter n st settled) = Return [] /\
  handleProcessImages (processImages st settled) = Return [].
Proof.
  intros H Hn.
  assert (Hany : forall m, (3 <= m)%nat ->
                   handleProcessImages (stateAfter m st settled) = Return []).
  { intros m Hm. apply handle_nothing_pending. by eapply no_pending_from_3. }
  split; [by apply Hany|].
  assert (Hlen : length (runUpdates (handleProcessImages st) settled)
                 = (4 + length settled)%nat).
  { rewrite H. destruct (handleProcessImages_Await _ _ _ H) as (_ & _ & _ & -> & _).
    apply run_updates_length. }
  rewrite <- (stateAfter_all st settled (4 + length settled)) by lia.
  apply Hany. lia.
Qed.

Lemma X11_second_invocation_witness :
  let st := Sample.state Sample.twoCodes Sample.mixedImages in
  handleProcessImages (stateAfter 3 st Sample.settledCalls) = Return [] /\
  handleProcessImages (processImages st Sample.settledCalls) = Return [].
Proof.
  apply (X11_second_invocation_does_nothing
           (Sample.state Sample.twoCodes Sample.mixedImages) startEffects
           [Sample.call "1" "A1_x.jpg" "A1"; Sample.call "2" "A2_y.jpg" "A2"]
           Sample.settledCalls 3).
  - reflexivity.
  - lia.
Defined.

(** * Beyond the claims: idle states, export, selection, clearing *)

Section Idle.

Lemma firstn_all_settled (settled : list (RenameCall * Settlement)) n :
  (3 + length settled < n)%nat -> firstn (n - 3) settled = settled.
Proof. intros H. apply firstn_all2. lia. Qed.

(** The items once every call of a run has settled. *)
Lemma run_final_item st effects calls settled img :
  NoDup (List.map id (st_images st)) ->
  handleProcessImages st = Await effects calls ->
  Permutation (List.map fst settled) calls ->
  In img (st_images st) ->
  (status img = pending /\
   exists cr, In cr settled /\ call_id (fst cr) = id img /\
              afterSettled settled (toProcessing img)
              = settleItem (snd cr) (with_status processing img))
  \/ (status img <> pending /\ afterSettled settled (toProcessing img) = img).
Proof.
  intros Hnd H Hperm Hin.
  destruct (decide (status img = pending)) as [Hp|Hp].
  - left. split; [exact Hp|].
    destruct (pending_targeted _ _ _ _ _ H Hperm Hin Hp) as [cr Hf].
    exists cr. pose proof (find_some _ _ Hf) as [Hcr E].
    apply bool_decide_eq_true in E. repeat split; [exact Hcr | done |].
    unfold toProcessing, is_pending. rewrite (bool_decide_eq_true_2 _ Hp).
    unfold afterSettled. simpl. by rewrite Hf.
  - right. split; [exact Hp|].
    unfold toProcessing, is_pending. rewrite (bool_decide_eq_false_2 _ Hp).
    unfold afterSettled.
    assert (Hpre : settled `prefix_of` settled) by reflexivity.
    by rewrite (not_pending_not_targeted _ _ _ _ settled _ Hnd H Hperm Hpre Hin Hp).
Qed.

Lemma idle_no_processing st :
  Reachable st -> st_isProcessing st = false ->
  Forall (fun img => status img <> processing) (st_images st).
Proof.
  induction 1 as [|st files _ IH Hidle _|st value _ IH Hidle|st _ _ _
                 |st settled n Hr IH Hidle Hs]; intros Hflag.
  - constructor.
  - simpl. apply List.Forall_app. split; [by apply IH|].
    apply List.Forall_map, List.Forall_forall. intros s _. discriminate.
  - by apply IH.
  - constructor.
  - specialize (IH Hidle). destruct (reachable_wellFormed st Hr) as [Hnd _].
    destruct (handleProcessImages st) as [effects|effects calls] eqn:H.
    { by rewrite (return_prefix_images _ _ _ _ H). }
    simpl in Hs. pose proof (settled_targets_NoDup _ _ _ _ Hnd H Hs) as Hnd'.
    destruct (run_flags st effects calls settled n H) as (Hf & _ & _).
    rewrite Hflag in Hf. rewrite (run_images_exact _ _ _ _ _ H Hnd').
    destruct (n <? 2)%nat eqn:E2.
    + apply Nat.ltb_lt in E2.
      replace (n <? 3)%nat with true by (symmetry; apply Nat.ltb_lt; lia). exact IH.
    + apply Nat.ltb_ge in E2. symmetry in Hf. apply Nat.leb_gt in Hf.
      replace (n <? 3)%nat with false by (symmetry; apply Nat.ltb_ge; lia).
      rewrite (firstn_all_settled _ _ Hf).
      apply List.Forall_map, List.Forall_forall. intros img Hin.
      destruct (run_final_item _ _ _ _ _ Hnd H Hs Hin)
        as [(_ & cr & _ & _ & ->)|[_ ->]].
      * by destruct (snd cr).
      * rewrite List.Forall_forall in IH. by apply IH.
Qed.

Lemma revoke_all (urls : list (list N)) :
  fold_left (fun l url => revokeObjectURL url l) urls urls = [].
Proof.
  induction urls as [|u us IH]; [reflexivity|].
  simpl. by rewrite bool_decide_eq_true_2.
Qed.

Lemma previewUrl_upload imgs :
  List.map previewUrl imgs = List.map (fun u => snd (fst u)) (List.map upload imgs).
Proof. by rewrite List.map_map. Qed.

Lemma download_entries st :
  handleDownloadAll st
  = match List.filter is_completed (st_images st) with
    | [] => None
    | completedImages =>
        Some (List.map (fun image => (newName image, file image)) completedImages)
    end.
Proof. unfold handleDownloadAll. by destruct (List.filter _ _). Qed.

End Idle.

(** X12: when the application is idle (the processing flag is down), no
    item is left in status processing: in every reachable state with the
    flag down, each item is pending, completed or in error. *)
Theorem X12_idle_states_have_no_processing_item (st : AppState) (img : ProcessedImage) :
  Reachable st -> st_isProcessing st = false -> In img (st_images st) ->
  status img = pending \/ status img = completed \/ status img = error.
Proof.
  intros Hr Hflag Hin. pose proof (idle_no_processing st Hr Hflag) as Hall.
  rewrite List.Forall_forall in Hall. specialize (Hall img Hin).
  destruct (status img); tauto.
Qed.

Lemma X12_idle_states_witness :
  status Sample.failedPhoto = pending \/ status Sample.failedPhoto = completed
  \/ status Sample.failedPhoto = error.
Proof.
  apply (X12_idle_states_have_no_processing_item
           (stateAfter 5
              (runEffect (runEffects (handleFilesSelected [Sample.photo]) initialState)
                         (setItemCodes (JS.lit "L41086600")))
              [(Sample.photoCall, Rejected (ErrorInstance (JS.lit "quota exceeded")))])
           Sample.failedPhoto).
  - apply reach_process.
    + apply reach_codes; [|reflexivity].
      apply reach_files; [apply reach_initial | reflexivity |].
      apply (bool_decide_unpack _). vm_compute. exact I.
    + reflexivity.
    + apply Permutation_refl.
  - reflexivity.
  - left. reflexivity.
Defined.

(** X13: the export takes the completed items and nothing else. It makes
    no archive exactly when no item is completed, that is, exactly when the
    Download button is not rendered; otherwise it adds one entry per
    completed item, in the order of the collection, each under the item's
    new name with the item's own file, equal names included. *)
Theorem X13_download_takes_exactly_the_completed_items (st : AppState) :
  (handleDownloadAll st = None <-> completedImagesCount st = 0%nat) /\
  (handleDownloadAll st = None <-> showsDownloadButton st = false) /\
  (forall entries,
      handleDownloadAll st = Some entries ->
      length entries = completedImagesCount st /\
      List.map snd entries = List.map file (List.filter is_completed (st_images st)) /\
      forall name f,
        In (name, f) entries <->
        exists img, In img (st_images st) /\ status img = completed /\
                    newName img = name /\ file img = f).
Proof.
  unfold completedImagesCount, showsDownloadButton, completedImagesCount.
  rewrite download_entries.
  destruct (List.filter is_completed (st_images st)) as [|x l] eqn:E.
  - repeat split; try done.
  - split; [split; discriminate|]. split; [split; discriminate|].
    intros entries Hs.
    assert (Hen : entries
                  = List.map (fun image => (newName image, file image)) (x :: l))
      by congruence.
    rewrite Hen. clear Hs Hen. rewrite length_map, List.map_map.
    split; [reflexivity|]. split; [reflexivity|]. intros name f. split.
    + intros Hin. apply (in_map_iff _ (x :: l)) in Hin as (img & [= <- <-] & Hi).
      rewrite <- E in Hi. apply filter_In in Hi as [Hi Hc].
      apply bool_decide_eq_true in Hc. by exists img.
    + intros (img & Hi & Hc & <- & <-).
      apply (in_map (fun image => (newName image, file image)) (x :: l)).
      rewrite <- E. apply filter_In. split; [exact Hi | by apply bool_decide_eq_true].
Qed.

(** X14: what a run adds to the export. With distinct ids, after a run
    every call that was fulfilled has an entry in the archive, under the
    returned name trimmed and with the file the call was given; and every
    entry is either such an entry or the entry of an item that was already
    completed before the run. Rejected calls contribute nothing. *)
Theorem X14_download_after_a_run
    (st : AppState) (effects : list Effect) (calls : list RenameCall)
    (settled : list (RenameCall * Settlement)) :
  NoDup (List.map id (st_images st)) ->
  handleProcessImages st = Await effects calls ->
  Permutation (List.map fst settled) calls ->
  (forall c name,
      In (c, Fulfilled name) settled ->
      exists entries,
        handleDownloadAll (processImages st settled) = Some entries /\
        In (JS.trim name, call_file c) entries) /\
  (forall entries name f,
      handleDownloadAll (processImages st settled) = Some entries ->
      In (name, f) entries ->
      (exists img, In img (st_images st) /\ status img = completed /\
                   newName img = name /\ file img = f)
      \/ (exists c returned, In (c, Fulfilled returned) settled /\
                             name = JS.trim returned /\ f = call_file c)).
Proof.
  intros Hnd H Hperm.
  pose proof (settled_targets_NoDup _ _ _ _ Hnd H Hperm) as Hnd'.
  pose proof (run_final_images _ _ _ _ H Hnd') as Hfinal.
  split.
  - intros c name Hin.
    destruct (settled_call_image _ _ _ _ _ H Hperm Hin) as (image & Hi & Hp & Eid & Ef).
    simpl in Eid, Ef.
    pose proof (settlementFor_In _ _ Hnd' Hin) as Hf. simpl in Hf. rewrite Eid in Hf.
    assert (Hx : In (with_newName (JS.trim name) (with_status completed
                       (with_status processing image)))
                    (List.filter is_completed (st_images (processImages st settled)))).
    { apply filter_In. split; [|reflexivity]. rewrite Hfinal.
      apply in_map_iff. exists image. split; [|exact Hi].
      unfold toProcessing, is_pending. rewrite (bool_decide_eq_true_2 _ Hp).
      unfold afterSettled. simpl. by rewrite Hf. }
    rewrite download_entries.
    destruct (List.filter is_completed (st_images (processImages st settled)))
      as [|x l] eqn:E; [destruct Hx|].
    eexists. split; [reflexivity|]. rewrite Ef.
    by apply (in_map (fun image => (newName image, file image)) (x :: l)) in Hx.
  - intros entries name f Hd Hin. rewrite download_entries in Hd.
    destruct (List.filter is_completed (st_images (processImages st settled)))
      as [|x l] eqn:E; [discriminate|].
    assert (Hen : entries
                  = List.map (fun image => (newName image, file image)) (x :: l))
      by congruence.
    rewrite Hen in Hin. clear Hd Hen.
    apply (in_map_iff _ (x :: l)) in Hin as (img' & [= <- <-] & Hi).
    rewrite <- E in Hi. apply filter_In in Hi as [Hi Hc].
    apply bool_decide_eq_true in Hc. rewrite Hfinal in Hi.
    apply in_map_iff in Hi as (img & <- & Hi).
    destruct (run_final_item _ _ _ _ _ Hnd H Hperm Hi)
      as [(Hp & [c r] & Hcr & Eid & Ex)|[Hp Ex]]; rewrite Ex in Hc |- *.
    + right. simpl in Ex, Hc, Eid |- *. destruct r as [returned|reason]; [|discriminate].
      exists c, returned. split; [exact Hcr|]. split; [reflexivity|].
      destruct (settled_call_image _ _ _ _ _ H Hperm Hcr) as (image & Hi' & _ & Eid' & Ef).
      simpl in Eid', Ef. rewrite Ef. simpl. f_equal.
      eapply (NoDup_map_In_inj id); eauto. congruence.
    + left. by exists img.
Qed.

Lemma X14_download_after_a_run_witness :
  exists entries,
    handleDownloadAll (processImages (Sample.state Sample.twoCodes Sample.mixedImages)
                                     Sample.settledCalls) = Some entries /\
    In (JS.trim (JS.lit " A1_front.jpg "), call_file (Sample.call "1" "A1_x.jpg" "A1"))
       entries.
Proof.
  destruct (X14_download_after_a_run
              (Sample.state Sample.twoCodes Sample.mixedImages) startEffects
              [Sample.call "1" "A1_x.jpg" "A1"; Sample.call "2" "A2_y.jpg" "A2"]
              Sample.settledCalls) as [H _].
  - apply (bool_decide_unpack _). vm_compute. exact I.
  - reflexivity.
  - apply perm_swap.
  - apply (H (Sample.call "1" "A1_x.jpg" "A1") (JS.lit " A1_front.jpg ")).
    right. left. reflexivity.
Defined.

Section Selection.

Lemma handleFilesSelected_state files st :
  runEffects (handleFilesSelected files) st
  = {| st_images := st_images st ++ List.map newImage files;
       st_itemCodes := st_itemCodes st;
       st_error := None;
       st_isProcessing := st_isProcessing st |}.
Proof. reflexivity. Qed.

Lemma newImages_pending files :
  List.filter is_pending (List.map newImage files) = List.map newImage files.
Proof. induction files as [|s l IH]; simpl; [reflexivity | by rewrite IH]. Qed.

Lemma newImages_not_completed files :
  List.filter is_completed (List.map newImage files) = [].
Proof. induction files as [|s l IH]; simpl; [reflexivity | exact IH]. Qed.

End Selection.

(** X15: selections accumulate. Selecting some files and then some more
    gives the state that selecting them all at once gives; a selection
    keeps every item already there at its place, adds one pending item per
    file after them, clears the error and leaves the completed items, the
    code text and the processing flag alone. *)
Theorem X15_selected_files_accumulate (st : AppState) (first second : list Selected) :
  runEffects (handleFilesSelected second) (runEffects (handleFilesSelected first) st)
  = runEffects (handleFilesSelected (first ++ second)) st /\
  pendingImagesCount (runEffects (handleFilesSelected first) st)
  = (pendingImagesCount st + length first)%nat /\
  completedImagesCount (runEffects (handleFilesSelected first) st)
  = completedImagesCount st /\
  (forall k img, st_images st !! k = Some img ->
                 st_images (runEffects (handleFilesSelected first) st) !! k = Some img) /\
  List.map originalName (st_images (runEffects (handleFilesSelected first) st))
  = List.map originalName (st_images st)
      ++ List.map (fun s => file_name (sel_file s)) first /\
  st_error (runEffects (handleFilesSelected first) st) = None.
Proof.
  rewrite !handleFilesSelected_state.
  unfold pendingImagesCount, completedImagesCount. cbn [st_images st_itemCodes
    st_error st_isProcessing].
  split; [by rewrite List.map_app, app_assoc|].
  split.
  { by rewrite List.filter_app, newImages_pending, length_app, length_map. }
  split.
  { by rewrite List.filter_app, newImages_not_completed, app_nil_r. }
  split.
  { intros k img Hk. by apply lookup_app_l_Some. }
  split; [|reflexivity].
  by rewrite List.map_app, List.map_map.
Qed.

(** X16: two files of the same name selected at the same millisecond get
    the same id exactly when [Math.random] answered the same for both. *)
Theorem X16_same_name_and_time_need_different_random (s1 s2 : Selected) :
  file_name (sel_file s1) = file_name (sel_file s2) ->
  sel_now s1 = sel_now s2 ->
  (id (newImage s1) = id (newImage s2) <-> sel_random s1 = sel_random s2).
Proof.
  intros Hname Hnow. unfold newImage. cbn [id]. rewrite Hname, Hnow. split.
  - intros E. do 4 apply app_inv_head in E. exact E.
  - by intros ->.
Qed.

Lemma X16_same_name_and_time_witness :
  id (newImage Sample.photo)
  = id (newImage {| sel_file := sel_file Sample.photo; sel_now := sel_now Sample.photo;
                    sel_random := JS.lit "0.5"; sel_url := JS.lit "blob:other" |})
  <-> sel_random Sample.photo = JS.lit "0.5".
Proof.
  apply (X16_same_name_and_time_need_different_random
           Sample.photo
           {| sel_file := sel_file Sample.photo; sel_now := sel_now Sample.photo;
              sel_random := JS.lit "0.5"; sel_url := JS.lit "blob:other" |});
    reflexivity.
Defined.

(** X17: clearing, from any state, empties the collection and the code
    text and drops the error; after it nothing is pending or completed, so
    no button but the uploader is rendered, the process and download
    actions do nothing, and clearing again changes nothing. From an idle
    state it gives the initial state back. *)
Theorem X17_clear_gives_the_initial_state_back (st : AppState) :
  let cleared := runEffects handleClear st in
  st_images cleared = [] /\ st_itemCodes cleared = [] /\ st_error cleared = None /\
  st_isProcessing cleared = st_isProcessing st /\
  (st_isProcessing st = false -> cleared = initialState) /\
  handleProcessImages cleared = Return [] /\
  handleDownloadAll cleared = None /\
  showsProcessButton cleared = false /\ showsDownloadButton cleared = false /\
  showsClearButton cleared = false /\
  runEffects handleClear cleared = cleared.
Proof.
  destruct st as [imgs codes err flag]. simpl.
  repeat split. by intros ->.
Qed.

Section PreviewUrls.

Lemma tracked_urls st live : Tracked st live -> live = revokedByClear st.
Proof.
  unfold revokedByClear.
  induction 1 as [|st live files _ IH _|st live value _ IH _|st live _ IH _
                 |st live settled n _ IH _ _].
  - reflexivity.
  - rewrite handleFilesSelected_state. cbn [st_images].
    rewrite List.map_app, List.map_map, IH. reflexivity.
  - exact IH.
  - rewrite IH. apply revoke_all.
  - rewrite previewUrl_upload, run_keeps_uploads, <- previewUrl_upload. exact IH.
Qed.

End PreviewUrls.

(** X18: no preview handle leaks. In every state the application reaches,
    the object URLs that are live are exactly the preview URLs of the items
    of the collection, in order; a run neither creates nor revokes any; and
    clearing revokes each of them once, which leaves none live. *)
Theorem X18_clear_releases_every_preview_url (st : AppState) (live : list (list N)) :
  Tracked st live ->
  live = List.map previewUrl (st_images st) /\
  fold_left (fun l url => revokeObjectURL url l) (revokedByClear st) live = [] /\
  (st_isProcessing st = false -> Tracked (runEffects handleClear st) []).
Proof.
  intros Ht. pose proof (tracked_urls st live Ht) as E.
  split; [exact E|]. split; [rewrite E; apply revoke_all|].
  intros Hflag. rewrite <- (revoke_all (revokedByClear st)). rewrite <- E at 2.
  by apply tracked_clear.
Qed.

Lemma X18_clear_releases_witness :
  [JS.lit "blob:preview"]
  = List.map previewUrl
      (st_images (runEffects (handleFilesSelected [Sample.photo]) initialState)) /\
  fold_left (fun l url => revokeObjectURL url l)
            (revokedByClear (runEffects (handleFilesSelected [Sample.photo]) initialState))
            [JS.lit "blob:preview"] = [] /\
  (st_isProcessing (runEffects (handleFilesSelected [Sample.photo]) initialState) = false ->
   Tracked (runEffects handleClear
              (runEffects (handleFilesSelected [Sample.photo]) initialState)) []).
Proof.
  apply (X18_clear_releases_every_preview_url
           (runEffects (handleFilesSelected [Sample.photo]) initialState)
           [JS.lit "blob:preview"]).
  apply (tracked_files initialState [] [Sample.photo]); [apply tracked_initial | reflexivity].
Defined.

Section Order2.

Lemma AppState_eq (s1 s2 : AppState) :
  st_images s1 = st_images s2 -> st_itemCodes s1 = st_itemCodes s2 ->
  st_error s1 = st_error s2 -> st_isProcessing s1 = st_isProcessing s2 -> s1 = s2.
Proof. destruct s1, s2. simpl. by intros -> -> -> ->. Qed.

(** With distinct targets, which call is found for an id does not depend on
    the order of the list. *)
Lemma settlementFor_Permutation (settled settled' : list (RenameCall * Settlement)) i :
  NoDup (List.map (fun cr => call_id (fst cr)) settled) ->
  Permutation settled settled' ->
  settlementFor settled' i = settlementFor settled i.
Proof.
  intros Hnd Hperm.
  assert (Hnd' : NoDup (List.map (fun cr => call_id (fst cr)) settled')).
  { by rewrite <- Hperm. }
  assert (Hfound : forall l l' cr,
            NoDup (List.map (fun cr => call_id (fst cr)) l') -> Permutation l l' ->
            settlementFor l i = Some cr -> settlementFor l' i = Some cr).
  { intros l l' cr Hn Hp Hf. apply find_some in Hf as [Hin E].
    apply bool_decide_eq_true in E. subst i. apply settlementFor_In; [exact Hn|].
    by eapply Permutation_in. }
  destruct (settlementFor settled i) as [cr|] eqn:Hf.
  - by apply (Hfound settled settled').
  - destruct (settlementFor settled' i) as [cr'|] eqn:Hf'; [|reflexivity].
    apply (Hfound settled' settled) in Hf'; [congruence | exact Hnd | by symmetry].
Qed.

Lemma run_final_flags st effects calls settled :
  handleProcessImages st = Await effects calls ->
  st_isProcessing (processImages st settled) = false /\
  st_error (processImages st settled) = None /\
  st_itemCodes (processImages st settled) = st_itemCodes st.
Proof.
  intros H.
  assert (Hlen : length (runUpdates (handleProcessImages st) settled)
                 = (4 + length settled)%nat).
  { rewrite H. destruct (handleProcessImages_Await _ _ _ H) as (_ & _ & _ & -> & _).
    apply run_updates_length. }
  rewrite <- (stateAfter_all st settled (4 + length settled)) by lia.
  destruct (run_flags st effects calls settled (4 + length settled) H) as (F1 & F2 & F3).
  rewrite F1, F2, F3. repeat split.
  replace (4 + length settled <? 2)%nat with false by (symmetry; apply Nat.ltb_ge; lia).
  apply Nat.leb_gt. lia.
Qed.

End Order2.

(** X19: no uniqueness is enforced, and a repeated code counts twice. With
    the single code typed once, a run starts whatever the names of the
    pending items; with the same code typed twice, the fallback is off, and
    one pending item whose name does not start with the code makes the
    action fail with the unmatched message. *)
Theorem X19_repeating_the_only_code_turns_the_fallback_off
    (once twice : AppState) (code : list N) (image : ProcessedImage) :
  st_images once = st_images twice ->
  parseCodes (st_itemCodes once) = [code] ->
  parseCodes (st_itemCodes twice) = [code; code] ->
  In image (st_images once) -> status image = pending ->
  ~ JS.trim code `prefix_of` originalName image ->
  (exists effects calls, handleProcessImages once = Await effects calls) /\
  (exists unmatched, In image unmatched /\
     handleProcessImages twice = Return [setError (Some (unmatchedMessage unmatched))]).
Proof.
  intros Himgs Honce Htwice Hin Hst Hno.
  assert (Hp : In image (List.filter is_pending (st_images once))).
  { apply filter_In. split; [exact Hin | by apply bool_decide_eq_true]. }
  split.
  - pose proof (handleProcessImages_exits once) as Hex. cbv zeta in Hex.
    pose proof (matchImages_unmatched (parseCodes (st_itemCodes once))
                  (List.filter is_pending (st_images once))
                  (parseCodes_nonempty_strings _)) as Hun.
    rewrite Honce in Hex, Hun. simpl in Hun.
    destruct Hex as [[Ep _]|[(_ & Ec & _)|[(_ & _ & Hu & _)|(_ & _ & _ & E)]]].
    + rewrite Ep in Hp. destruct Hp.
    + discriminate.
    + contradiction.
    + exact E.
  - pose proof (handleProcessImages_exits twice) as Hex. cbv zeta in Hex.
    pose proof (matchImages_unmatched (parseCodes (st_itemCodes twice))
                  (List.filter is_pending (st_images twice))
                  (parseCodes_nonempty_strings _)) as Hun.
    rewrite Htwice in Hex, Hun. rewrite <- Himgs in Hex, Hun. simpl in Hun.
    assert (Hi : In image (snd (matchImages [code; code]
                                  (List.filter is_pending (st_images once))))).
    { rewrite Hun. apply filter_In. split; [exact Hp|].
      destruct (startsWithNoCode [code; code] image) eqn:E; [reflexivity|].
      apply startsWithNoCode_false in E as (c & [<-|[<-|[]]] & Hc); contradiction. }
    destruct Hex as [[Ep _]|[(_ & Ec & _)|[(_ & _ & Hu & E)|(_ & _ & Eu & _)]]].
    + rewrite Ep in Hp. destruct Hp.
    + discriminate.
    + eauto.
    + rewrite Eu in Hi. destruct Hi.
Qed.

Lemma X19_repeating_the_only_code_witness :
  (exists effects calls,
      handleProcessImages (Sample.state (JS.lit "A1") [Sample.image "1" "photo1.jpg" pending])
      = Await effects calls) /\
  (exists unmatched, In (Sample.image "1" "photo1.jpg" pending) unmatched /\
     handleProcessImages (Sample.state (JS.lit "A1" ++ [JS.LF] ++ JS.lit "A1")
                                       [Sample.image "1" "photo1.jpg" pending])
     = Return [setError (Some (unmatchedMessage unmatched))]).
Proof.
  apply (X19_repeating_the_only_code_turns_the_fallback_off
           (Sample.state (JS.lit "A1") [Sample.image "1" "photo1.jpg" pending])
           (Sample.state (JS.lit "A1" ++ [JS.LF] ++ JS.lit "A1")
                         [Sample.image "1" "photo1.jpg" pending])
           (JS.lit "A1") (Sample.image "1" "photo1.jpg" pending)).
  - reflexivity.
  - reflexivity.
  - reflexivity.
  - left. reflexivity.
  - reflexivity.
  - intros [k E]. discriminate E.
Defined.

(** X20: the order in which the calls settle does not matter. With distinct
    ids, two runs from the same state in which the same calls settle with
    the same results, in different orders, end in the same state. *)
Theorem X20_final_state_ignores_the_settling_order
    (st : AppState) (settled settled' : list (RenameCall * Settlement)) :
  NoDup (List.map id (st_images st)) ->
  settles (handleProcessImages st) settled ->
  Permutation settled settled' ->
  processImages st settled' = processImages st settled.
Proof.
  intros Hnd Hs Hperm.
  destruct (handleProcessImages st) as [effects|effects calls] eqn:H.
  { unfold processImages. by rewrite H. }
  simpl in Hs.
  assert (Hs' : Permutation (List.map fst settled') calls).
  { by rewrite <- Hperm. }
  pose proof (settled_targets_NoDup _ _ _ _ Hnd H Hs) as Hn.
  pose proof (settled_targets_NoDup _ _ _ _ Hnd H Hs') as Hn'.
  destruct (run_final_flags st effects calls settled H) as (F1 & F2 & F3).
  destruct (run_final_flags st effects calls settled' H) as (G1 & G2 & G3).
  apply AppState_eq; try congruence.
  rewrite (run_final_images _ _ _ _ H Hn), (run_final_images _ _ _ _ H Hn').
  apply map_ext. intros img. unfold afterSettled.
  by rewrite (settlementFor_Permutation settled settled' _ Hn Hperm).
Qed.

Lemma X20_final_state_ignores_order_witness :
  processImages (Sample.state Sample.twoCodes Sample.mixedImages)
                (rev Sample.settledCalls)
  = processImages (Sample.state Sample.twoCodes Sample.mixedImages) Sample.settledCalls.
Proof.
  apply (X20_final_state_ignores_the_settling_order
           (Sample.state Sample.twoCodes Sample.mixedImages)
           Sample.settledCalls (rev Sample.settledCalls)).
  - apply (bool_decide_unpack _). vm_compute. exact I.
  - apply perm_swap.
  - apply perm_swap.
Defined.
